(** * AnalysisResults.tsx: a shallow embedding of the results-table component

    The component of [frontend/src/components/AnalysisResults.tsx] is
    embedded in four layers:

    - [Js]       the handful of JavaScript primitives the component relies
                 on (truthiness, [&&]/[||] on values, [split], [pop],
                 [startsWith], [encodeURIComponent]);
    - [Model]    the data of [../types] as records, the pure computations
                 of the render body ([flattenedBestPractices],
                 [getBestPracticeCounts], [lensAlias], the column cells and
                 the header buttons);
    - [Effects]  the event handlers as resumable programs (an [async]
                 function suspends at its [await]), with [try]/[catch]/
                 [finally] combinators, their interpretation on the React
                 state, and the click loop of the rendered buttons;
    - [Store]    the same render body over a heap of JavaScript objects,
                 where aliasing and mutation are visible.

    Strings are sequences of bytes (UTF-8); every literal the component
    compares against is ASCII.  Counters are [nat]: the component only ever
    adds 1 to them, far below 2^53. *)

From Stdlib Require Import Ascii String Lia.
From stdpp Require Import base strings list gmap.

Local Open Scope string_scope.
Local Open Scope list_scope.
Local Open Scope nat_scope.

(* ===================================================================== *)
(** * JavaScript primitives *)
(* ===================================================================== *)

Module Js.

(** The values that flow through the [&&], [||] and [?:] operators of the
    component: [undefined], booleans and strings. *)
Inductive value :=
| Undefined
| Bool (b : bool)
| Str (s : string).

Definition is_empty (s : string) : bool :=
  match s with EmptyString => true | String _ _ => false end.

(** ToBoolean. *)
Definition truthy (v : value) : bool :=
  match v with
  | Undefined => false
  | Bool b => b
  | Str s => negb (is_empty s)
  end.

(** [a && b] and [a || b] return one of their operands. *)
Definition and_ (a b : value) : value := if truthy a then b else a.
Definition or_ (a b : value) : value := if truthy a then a else b.
Definition not_ (a : value) : value := Bool (negb (truthy a)).

(** An optional string property ([s?: string]) read as a value. *)
Definition of_opt (o : option string) : value :=
  match o with Some s => Str s | None => Undefined end.

(** [o ? yes(o) : no] (also the shape of [if (o) ..] and [o || no]) for
    an optional string [o]: [undefined] and the empty string are falsy. *)
Definition if_truthy {X} (o : option string) (yes : string → X) (no : X) : X :=
  match o with
  | Some s => if is_empty s then no else yes s
  | None => no
  end.

(** [s.split(sep)] for a one-character separator: the pieces between
    the separators, never the empty array. *)
Fixpoint split (sep : ascii) (s : string) : list string :=
  match s with
  | EmptyString => [EmptyString]
  | String c s' =>
      if Ascii.eqb c sep then EmptyString :: split sep s'
      else match split sep s' with
           | piece :: rest => String c piece :: rest
           | [] => [String c EmptyString]
           end
  end.

(** [a.pop()]: the last element, [undefined] on the empty array. *)
Fixpoint pop (a : list string) : option string :=
  match a with
  | [] => None
  | [x] => Some x
  | _ :: rest => pop rest
  end.

(** [s.startsWith(p)]. *)
Fixpoint startsWith (p s : string) : bool :=
  match p with
  | EmptyString => true
  | String a p' =>
      match s with
      | EmptyString => false
      | String b s' => Ascii.eqb a b && startsWith p' s'
      end
  end.

(** [encodeURIComponent]: every byte outside
    [A-Z a-z 0-9 - _ . ! ~ * ' ( )] becomes [%XX] in upper-case hex. *)
Definition hex_digit (n : nat) : ascii :=
  match n with
  | 0 => "0" | 1 => "1" | 2 => "2" | 3 => "3" | 4 => "4" | 5 => "5"
  | 6 => "6" | 7 => "7" | 8 => "8" | 9 => "9" | 10 => "A" | 11 => "B"
  | 12 => "C" | 13 => "D" | 14 => "E" | _ => "F"
  end%char.

Definition uri_unreserved (c : ascii) : bool :=
  let n := nat_of_ascii c in
  (Nat.leb 65 n && Nat.leb n 90) || (Nat.leb 97 n && Nat.leb n 122)
  || (Nat.leb 48 n && Nat.leb n 57)
  || existsb (Ascii.eqb c)
       ["-"; "_"; "."; "!"; "~"; "*"; "'"; "("; ")"]%char.

Fixpoint encodeURIComponent (s : string) : string :=
  match s with
  | EmptyString => EmptyString
  | String c s' =>
      if uri_unreserved c then String c (encodeURIComponent s')
      else
        let n := nat_of_ascii c in
        String "%" (String (hex_digit (n / 16)) (String (hex_digit (n mod 16))
          (encodeURIComponent s')))
  end.

End Js.

(* ===================================================================== *)
(** * Data model and the pure part of the render body *)
(* ===================================================================== *)

Module Model.

(** [BestPractice] and [AnalysisResult] are declared in [../types]; the
    records carry the fields this component reads. *)
Record BestPractice := {
  bp_id : string;
  bp_name : string;
  bp_relevant : bool;
  bp_applied : bool;
  bp_reasonApplied : option string;
  bp_reasonNotApplied : option string;
  bp_recommendations : option string;
}.

Record AnalysisResult := {
  ar_pillar : string;
  ar_question : string;
  ar_questionId : string;
  ar_bestPractices : list BestPractice;
}.

(** [interface EnhancedBestPractice extends BestPractice]. *)
Record EnhancedBestPractice := {
  id : string;
  name : string;
  relevant : bool;
  applied : bool;
  reasonApplied : option string;
  reasonNotApplied : option string;
  recommendations : option string;
  pillar : string;
  question : string;
  questionId : string;
}.

(** The [BestPractice] part of a row (the fields copied by [...bp]). *)
Definition base (e : EnhancedBestPractice) : BestPractice :=
  {| bp_id := id e; bp_name := name e; bp_relevant := relevant e;
     bp_applied := applied e; bp_reasonApplied := reasonApplied e;
     bp_reasonNotApplied := reasonNotApplied e;
     bp_recommendations := recommendations e |}.

(** [{ ...bp, pillar: result.pillar, question: result.question,
       questionId: result.questionId }] *)
Definition enhance (result : AnalysisResult) (bp : BestPractice)
  : EnhancedBestPractice :=
  {| id := bp_id bp; name := bp_name bp; relevant := bp_relevant bp;
     applied := bp_applied bp; reasonApplied := bp_reasonApplied bp;
     reasonNotApplied := bp_reasonNotApplied bp;
     recommendations := bp_recommendations bp;
     pillar := ar_pillar result;
     question := ar_question result;
     questionId := ar_questionId result |}.

(** [Array.prototype.flatMap] on a callback that returns arrays. *)
Definition flatMap {A B} (f : A → list B) (l : list A) : list B :=
  concat (map f l).

Definition flattenedBestPractices (results : list AnalysisResult)
  : list EnhancedBestPractice :=
  flatMap (λ result, map (enhance result) (ar_bestPractices result)) results.

(** The accumulator of the [reduce] in [getBestPracticeCounts]. *)
Record Counts := {
  c_applied : nat;
  c_notApplied : nat;
  c_notRelevant : nat;
}.

Record CountsWithTotal := {
  applied_count : nat;
  notApplied_count : nat;
  notRelevant_count : nat;
  totalReviewed : nat;
}.

Definition count_step (acc : Counts) (practice : EnhancedBestPractice)
  : Counts :=
  {| c_applied :=
       c_applied acc + (if relevant practice && applied practice then 1 else 0);
     c_notApplied :=
       c_notApplied acc
       + (if relevant practice && negb (applied practice) then 1 else 0);
     c_notRelevant :=
       c_notRelevant acc + (if negb (relevant practice) then 1 else 0) |}.

Definition getBestPracticeCounts (practices : list EnhancedBestPractice)
  : CountsWithTotal :=
  let counts :=
    fold_left count_step practices
      {| c_applied := 0; c_notApplied := 0; c_notRelevant := 0 |} in
  {| applied_count := c_applied counts;
     notApplied_count := c_notApplied counts;
     notRelevant_count := c_notRelevant counts;
     totalReviewed :=
       c_applied counts + c_notApplied counts + c_notRelevant counts |}.

(** The three buckets of the summary, and the number of items of a list
    in a bucket. *)
Definition bucket_applied (p : EnhancedBestPractice) : bool :=
  relevant p && applied p.
Definition bucket_notApplied (p : EnhancedBestPractice) : bool :=
  relevant p && negb (applied p).
Definition bucket_notRelevant (p : EnhancedBestPractice) : bool :=
  negb (relevant p).

Definition tally (f : EnhancedBestPractice → bool)
    (l : list EnhancedBestPractice) : nat :=
  length (filter (λ p, f p = true) l).

(** Offset of the first row of the [i]-th result in the flattened list. *)
Definition rowOffset (results : list AnalysisResult) (i : nat) : nat :=
  sum_list_with (λ r, length (ar_bestPractices r)) (take i results).

(** ** Props and local state *)

(** [IaCTemplateType] is an enumeration of [../types]; the component only
    passes it on, so its values are carried as their string tags. *)
Definition IaCTemplateType := string.

(** The data props of [AnalysisResultsProps].  The callback props
    ([onDownloadRecommendations], [onGenerateIacDocument],
    [setIsLoadingDetails], [setError]) are actions of [Effects]. *)
Record Props := {
  results : list AnalysisResult;
  isAnalyzing : bool;
  isDownloading : bool;
  isImplementing : bool;
  isLoadingDetails : bool;
  uploadedFileType : string;
  selectedIaCType : IaCTemplateType;
  fileId : string;
  fileName : string;
  lensAliasArn : option string;
  lensName : string;
  outputLanguage : string;
}.

(** The [useState] cells of the component that the handlers touch. *)
Record CompState := {
  selectedItems : list EnhancedBestPractice;
  detailsModalVisible : bool;
  detailsContent : string;
  detailsError : option string;
}.

Definition initialState : CompState :=
  {| selectedItems := []; detailsModalVisible := false;
     detailsContent := EmptyString; detailsError := None |}.

(** ** Lens alias and the link of the name column *)

(** [lensAliasArn?.split('/')?.pop() || 'wellarchitected'] *)
Definition lensAlias (lensAliasArn : option string) : string :=
  Js.if_truthy (lensAliasArn ≫= λ arn, Js.pop (Js.split "/" arn))
    (λ alias, alias) "wellarchitected".

Definition dquote : string := String (ascii_of_nat 34) EmptyString.

Definition frameworkUrl (item : EnhancedBestPractice) : string :=
  "https://docs.aws.amazon.com/wellarchitected/latest/framework/"
  +:+ id item +:+ ".html".

Definition docSearchUrl (lensName : string) (item : EnhancedBestPractice)
  : string :=
  "https://docs.aws.amazon.com/search/doc-search.html?searchPath=documentation-guide&searchQuery="
  +:+ Js.encodeURIComponent
        (dquote +:+ lensName +:+ dquote +:+ "+"
         +:+ dquote +:+ pillar item +:+ dquote).

(** The [href] of the [Link] in the [name] column. *)
Definition nameHref (p : Props) (item : EnhancedBestPractice) : string :=
  if String.eqb (lensAlias (lensAliasArn p)) "wellarchitected"
  then frameworkUrl item
  else docSearchUrl (lensName p) item.

End Model.

(* ===================================================================== *)
(** * Event handlers as resumable programs *)
(* ===================================================================== *)

Module Effects.
Import Model.

(** What a [catch] clause can receive: an [Error] object with its
    [message], or any other thrown value. *)
Inductive Thrown :=
| ErrorObject (message : string)
| OtherThrown (v : Js.value).

(** The object [getMoreDetails] resolves to. *)
Record DetailsResult := {
  content : option string;
  error : option string;
}.

(** The six arguments of [analyzerApi.getMoreDetails], in order. *)
Record DetailsArgs := {
  arg_selectedItems : list EnhancedBestPractice;
  arg_fileId : string;
  arg_selectedIaCType : IaCTemplateType;
  arg_lensAliasArn : option string;
  arg_lensName : string;
  arg_outputLanguage : string;
}.

(** The two methods of the external [analyzerApi] client that the
    component calls, indexed by what their promise resolves to. *)
Inductive ApiCall : Type → Type :=
| getMoreDetails (args : DetailsArgs) : ApiCall DetailsResult
| cancelIaCGeneration : ApiCall unit.

Inductive Settled (R : Type) :=
| Fulfilled (r : R)
| Rejected (e : Thrown).
Arguments Fulfilled {R} r.
Arguments Rejected {R} e.

(** Synchronous calls: React state setters, callback props, the chat
    context and the console. *)
Inductive Action :=
| setIsLoadingDetails (loading : bool)
| setError (e : option string)
| setSelectedItems (items : list EnhancedBestPractice)
| setDetailsModalVisible (visible : bool)
| setDetailsContent (c : string)
| setDetailsError (e : option string)
| onGenerateIacDocument
| onDownloadRecommendations
| openChatWithSupportPrompt (prompt : string)
| consoleError (msg : string) (e : Thrown).

(** A handler body: it returns, throws, performs a synchronous call, or
    calls the API client and suspends until the promise settles. *)
Inductive Prog (A : Type) : Type :=
| Ret (a : A)
| Throw (e : Thrown)
| Do (act : Action) (k : Prog A)
| Await {R : Type} (c : ApiCall R) (k : Settled R → Prog A).
Arguments Ret {A} a.
Arguments Throw {A} e.
Arguments Do {A} act k.
Arguments Await {A R} c k.

Fixpoint bind {A B} (p : Prog A) (f : A → Prog B) : Prog B :=
  match p with
  | Ret a => f a
  | Throw e => Throw e
  | Do act k => Do act (bind k f)
  | Await c k => Await c (λ s, bind (k s) f)
  end.

Notation "x <- p ;; q" := (bind p (λ x, q))
  (at level 20, p at level 99, q at level 200, only parsing).
Notation "p ;;; q" := (bind p (λ _, q))
  (at level 100, q at level 200, only parsing, right associativity).

Definition call (act : Action) : Prog unit := Do act (Ret tt).

(** [await api.method(..)]: a rejection is thrown at the [await]. *)
Definition await {R} (c : ApiCall R) : Prog R :=
  Await c (λ s, match s with Fulfilled r => Ret r | Rejected e => Throw e end).

(** [try { body } catch (e) { handler e }] *)
Fixpoint try_catch {A} (body : Prog A) (handler : Thrown → Prog A) : Prog A :=
  match body with
  | Ret a => Ret a
  | Throw e => handler e
  | Do act k => Do act (try_catch k handler)
  | Await c k => Await c (λ s, try_catch (k s) handler)
  end.

(** [try { body } finally { final }]: [final] runs on both exits and the
    exit of [body] is kept. *)
Fixpoint try_finally {A} (body : Prog A) (final : Prog unit) : Prog A :=
  match body with
  | Ret a => final ;;; Ret a
  | Throw e => final ;;; Throw e
  | Do act k => Do act (try_finally k final)
  | Await c k => Await c (λ s, try_finally (k s) final)
  end.

(** ** The handlers *)

Definition handleGenerateIacClick : Prog unit :=
  call onGenerateIacDocument.

Definition detailsArgs (p : Props) (st : CompState) : DetailsArgs :=
  {| arg_selectedItems := selectedItems st;
     arg_fileId := fileId p;
     arg_selectedIaCType := selectedIaCType p;
     arg_lensAliasArn := lensAliasArn p;
     arg_lensName := lensName p;
     arg_outputLanguage := outputLanguage p |}.

Definition noContentMessage : string :=
  "No content received from analysis. Please try again.".
Definition detailsFailedMessage : string :=
  "Failed to get detailed analysis".

Definition handleGetMoreDetails (p : Props) (st : CompState) : Prog unit :=
  try_finally
    (try_catch
       (call (setIsLoadingDetails true) ;;;
        call (setDetailsError None) ;;;
        result <- await (getMoreDetails (detailsArgs p st)) ;;
        Js.if_truthy (error result)
          (λ e, call (setDetailsError (Some e)))
          (Ret tt) ;;;
        Js.if_truthy (content result)
          (λ c, call (setDetailsContent c) ;;;
                call (setDetailsModalVisible true))
          (call (setError (Some noContentMessage))))
       (λ error,
          call (setError (Some (match error with
                                | ErrorObject message => message
                                | OtherThrown _ => detailsFailedMessage
                                end)))))
    (call (setIsLoadingDetails false)).

Definition cancelFailedMessage : string :=
  "Failed to cancel IaC generation:".

Definition handleCancelGeneration : Prog unit :=
  try_catch
    (await cancelIaCGeneration)
    (λ error, call (consoleError cancelFailedMessage error)).

Definition chatPrompt (item : EnhancedBestPractice) : string :=
  "Can you provide more detailed recommendations and instructions for the best practice '"
  +:+ name item +:+ "' of the '" +:+ pillar item +:+ "' pillar?".

Definition handleAiChatClick (item : EnhancedBestPractice) : Prog unit :=
  let prompt := chatPrompt item in
  call (openChatWithSupportPrompt prompt).

(** ** What the render body returns *)

Inductive Label :=
| getMoreDetailsLabel
| generateIacDocumentLabel
| cancelIacGenerationLabel
| downloadAnalysisLabel.

Definition Label_eqb (a b : Label) : bool :=
  match a, b with
  | getMoreDetailsLabel, getMoreDetailsLabel
  | generateIacDocumentLabel, generateIacDocumentLabel
  | cancelIacGenerationLabel, cancelIacGenerationLabel
  | downloadAnalysisLabel, downloadAnalysisLabel => true
  | _, _ => false
  end.

(** The props given to a toolkit [Button]. *)
Record Button := {
  label : Label;
  onClick : Prog unit;
  loading : bool;
  disabled : bool;
  iconName : string;
}.

(** The children of the [SpaceBetween] in the header's [actions]. *)
Definition headerActions (p : Props) (st : CompState) : list Button :=
  [ {| label := getMoreDetailsLabel;
       onClick := handleGetMoreDetails p st;
       loading := isLoadingDetails p;
       disabled := Nat.eqb (length (selectedItems st)) 0 || isLoadingDetails p;
       iconName := "gen-ai" |};
    {| label := generateIacDocumentLabel;
       onClick := handleGenerateIacClick;
       loading := isImplementing p;
       disabled := isDownloading p || isImplementing p
                   || negb (Js.startsWith "image/" (uploadedFileType p));
       iconName := "gen-ai" |} ]
  ++ (if isImplementing p
      then [ {| label := cancelIacGenerationLabel;
                onClick := handleCancelGeneration;
                loading := false;
                disabled := false;
                iconName := "close" |} ]
      else [])
  ++ [ {| label := downloadAnalysisLabel;
          onClick := call onDownloadRecommendations;
          loading := isDownloading p;
          disabled := isDownloading p || isImplementing p;
          iconName := "download" |} ].

Definition findButton (l : Label) (bs : list Button) : option Button :=
  find (λ b, Label_eqb (label b) l) bs.

(** The cell of the [recommendations] column. *)
Inductive Cell :=
| Text (v : Js.value)
| TextWithChatButton (text : Js.value) (onClick : Prog unit).

Definition recommendationsCell (item : EnhancedBestPractice) : Cell :=
  if negb (relevant item) then Text (Js.Str "N/A")
  else if Js.truthy (Js.and_ (Js.not_ (Js.Bool (applied item)))
                             (Js.of_opt (recommendations item)))
  then TextWithChatButton (Js.of_opt (recommendations item))
                          (handleAiChatClick item)
  else Text (Js.or_ (Js.and_ (Js.not_ (Js.Bool (applied item)))
                             (Js.of_opt (recommendations item)))
                    (Js.Str "N/A")).

End Effects.

(* ===================================================================== *)
(** * Running handlers against the React state *)
(* ===================================================================== *)

Module Runtime.
Import Model Effects.

(** Everything observable a handler does, in order. *)
Inductive Event :=
| Did (act : Action)
| Called {R : Type} (c : ApiCall R).

(** The props as last rendered, the component's own state, the error
    banner of the parent (written by [setError]) and the log of calls. *)
Record World := {
  props : Props;
  state : CompState;
  shownError : option string;
  trace : list Event;
}.

Definition mount (p : Props) : World :=
  {| props := p; state := initialState; shownError := None; trace := [] |}.

Definition with_isLoadingDetails (b : bool) (p : Props) : Props :=
  {| results := results p; isAnalyzing := isAnalyzing p;
     isDownloading := isDownloading p; isImplementing := isImplementing p;
     isLoadingDetails := b;
     uploadedFileType := uploadedFileType p;
     selectedIaCType := selectedIaCType p; fileId := fileId p;
     fileName := fileName p; lensAliasArn := lensAliasArn p;
     lensName := lensName p; outputLanguage := outputLanguage p |}.

Definition with_state (f : CompState → CompState) (w : World) : World :=
  {| props := props w; state := f (state w);
     shownError := shownError w; trace := trace w |}.

Definition log (ev : Event) (w : World) : World :=
  {| props := props w; state := state w;
     shownError := shownError w; trace := trace w ++ [ev] |}.

(** The effect of a synchronous call.  [isLoadingDetails] and
    [setIsLoadingDetails] are the two halves of one state cell of the
    parent, and so are the error banner and [setError]; the other
    callback props and the chat context leave this component's inputs
    alone until the parent renders again. *)
Definition effect (act : Action) (w : World) : World :=
  match act with
  | setIsLoadingDetails b =>
      {| props := with_isLoadingDetails b (props w); state := state w;
         shownError := shownError w; trace := trace w |}
  | setError e =>
      {| props := props w; state := state w;
         shownError := e; trace := trace w |}
  | setSelectedItems items =>
      with_state (λ st,
        {| selectedItems := items;
           detailsModalVisible := detailsModalVisible st;
           detailsContent := detailsContent st;
           detailsError := detailsError st |}) w
  | setDetailsModalVisible v =>
      with_state (λ st,
        {| selectedItems := selectedItems st;
           detailsModalVisible := v;
           detailsContent := detailsContent st;
           detailsError := detailsError st |}) w
  | setDetailsContent c =>
      with_state (λ st,
        {| selectedItems := selectedItems st;
           detailsModalVisible := detailsModalVisible st;
           detailsContent := c;
           detailsError := detailsError st |}) w
  | setDetailsError e =>
      with_state (λ st,
        {| selectedItems := selectedItems st;
           detailsModalVisible := detailsModalVisible st;
           detailsContent := detailsContent st;
           detailsError := e |}) w
  | onGenerateIacDocument
  | onDownloadRecommendations
  | openChatWithSupportPrompt _
  | consoleError _ _ => w
  end.

Definition perform (act : Action) (w : World) : World :=
  log (Did act) (effect act w).

(** How a handler invocation ends. *)
Inductive Exit (A : Type) :=
| Returned (a : A)
| Threw (e : Thrown).
Arguments Returned {A} a.
Arguments Threw {A} e.

(** The external API client: what each call settles to. *)
Record Api := { respond : ∀ R, ApiCall R → Settled R }.

(** A handler run to completion against a given client. *)
Fixpoint exec {A} (api : Api) (p : Prog A) (w : World) : Exit A * World :=
  match p with
  | Ret a => (Returned a, w)
  | Throw e => (Threw e, w)
  | Do act k => exec api k (perform act w)
  | Await c k => exec api (k (respond api _ c)) (log (Called c) w)
  end.

(** The world after the part of [handleGetMoreDetails] that follows the
    [await], from the world [w1] in which the call was made. *)
Definition afterDetails (s : Settled DetailsResult) (w1 : World) : World :=
  perform (setIsLoadingDetails false)
    match s with
    | Fulfilled result =>
        let w2 :=
          Js.if_truthy (error result)
            (λ e, perform (setDetailsError (Some e)) w1) w1 in
        Js.if_truthy (content result)
          (λ c, perform (setDetailsModalVisible true)
                  (perform (setDetailsContent c) w2))
          (perform (setError (Some noContentMessage)) w2)
    | Rejected (ErrorObject message) => perform (setError (Some message)) w1
    | Rejected (OtherThrown _) =>
        perform (setError (Some detailsFailedMessage)) w1
    end.

(** ** The click loop *)

(** A handler suspended at its [await]. *)
Inductive Pending :=
| PendingDetails (args : DetailsArgs) (k : Settled DetailsResult → Prog unit)
| PendingCancel (k : Settled unit → Prog unit).

Definition suspend {R} (c : ApiCall R) : (Settled R → Prog unit) → Pending :=
  match c in ApiCall R return (Settled R → Prog unit) → Pending with
  | getMoreDetails args => PendingDetails args
  | cancelIaCGeneration => PendingCancel
  end.

Record UI := {
  world : World;
  pending : list Pending;
}.

(** Run a handler up to its first [await] (or to its end).  The promise
    of an [async] handler is dropped by the caller, so how it ends is
    not observed. *)
Fixpoint run_sync (p : Prog unit) (ui : UI) : UI :=
  match p with
  | Ret _ | Throw _ => ui
  | Do act k =>
      run_sync k {| world := perform act (world ui); pending := pending ui |}
  | Await c k =>
      {| world := log (Called c) (world ui);
         pending := pending ui ++ [suspend c k] |}
  end.

Inductive Settlement :=
| DetailsSettled (s : Settled DetailsResult)
| CancelSettled (s : Settled unit).

Inductive UIEvent :=
| Click (l : Label)                     (* a header button *)
| ClickChat (row : nat)                 (* the chat icon of a table row *)
| SelectionChange (items : list EnhancedBestPractice)
| DismissModal
| Settle (i : nat) (s : Settlement)     (* the i-th open request settles *)
| ParentRender (p : Props).             (* new props from the parent *)

(** The toolkit's [Button] calls [onClick] unless it is [disabled] or
    [loading]. *)
Definition click (b : Button) (ui : UI) : UI :=
  if disabled b || loading b then ui else run_sync (onClick b) ui.

(** One event of the page.  The component is rendered again after every
    event, so the handlers close over the current props and state.  The
    parent may pass any new props at any time, except that
    [isLoadingDetails] is its state cell behind [setIsLoadingDetails] and
    changes only through that setter. *)
Definition step (ui : UI) (ev : UIEvent) : UI :=
  let w := world ui in
  match ev with
  | Click l =>
      match findButton l (headerActions (props w) (state w)) with
      | Some b => click b ui
      | None => ui
      end
  | ClickChat row =>
      match flattenedBestPractices (results (props w)) !! row with
      | Some item =>
          match recommendationsCell item with
          | TextWithChatButton _ h => run_sync h ui
          | Text _ => ui
          end
      | None => ui
      end
  | SelectionChange items =>
      run_sync (call (setSelectedItems items)) ui
  | DismissModal =>
      run_sync (call (setDetailsModalVisible false)) ui
  | Settle i s =>
      let rest := {| world := w; pending := delete i (pending ui) |} in
      match pending ui !! i, s with
      | Some (PendingDetails _ k), DetailsSettled o => run_sync (k o) rest
      | Some (PendingCancel k), CancelSettled o => run_sync (k o) rest
      | _, _ => ui
      end
  | ParentRender p =>
      {| world :=
           {| props := with_isLoadingDetails (isLoadingDetails (props w)) p;
              state := state w; shownError := shownError w;
              trace := trace w |};
         pending := pending ui |}
  end.

Definition run (ui : UI) (evs : list UIEvent) : UI := fold_left step evs ui.

Definition start (p : Props) : UI := {| world := mount p; pending := [] |}.

(** What was logged between two worlds. *)
Definition emitted (w w' : World) : list Event :=
  drop (length (trace w)) (trace w').

Definition is_api_call (ev : Event) : bool :=
  match ev with Called _ => true | Did _ => false end.

(** Counting calls in a trace. *)
Definition is_details_call (ev : Event) : bool :=
  match ev with
  | @Called _ (getMoreDetails _) => true
  | _ => false
  end.

Definition is_generate_call (ev : Event) : bool :=
  match ev with
  | Did onGenerateIacDocument => true
  | _ => false
  end.

Definition is_pending_details (q : Pending) : bool :=
  match q with PendingDetails _ _ => true | PendingCancel _ => false end.

Definition detailsCalls (ui : UI) : nat :=
  length (filter (λ ev, is_details_call ev = true) (trace (world ui))).
Definition generateCalls (ui : UI) : nat :=
  length (filter (λ ev, is_generate_call ev = true) (trace (world ui))).
Definition detailsInFlight (ui : UI) : nat :=
  length (filter (λ q, is_pending_details q = true) (pending ui)).

(** The selections that [getMoreDetails] was called with. *)
Definition calledSelections (ui : UI) : list (list EnhancedBestPractice) :=
  omap (λ ev, match ev with
              | @Called _ (getMoreDetails args) => Some (arg_selectedItems args)
              | _ => None
              end) (trace (world ui)).

(** The [disabled] props of the first two header buttons. *)
Definition detailsDisabled (ui : UI) : bool :=
  Nat.eqb (length (selectedItems (state (world ui)))) 0
  || isLoadingDetails (props (world ui)).

Definition generateDisabled (ui : UI) : bool :=
  let p := props (world ui) in
  isDownloading p || isImplementing p
  || negb (Js.startsWith "image/" (uploadedFileType p)).

(** ** What holds of every state the click loop reaches *)

(** The continuation of a suspended details handler finishes the
    handler without suspending again. *)
Definition resumes_details (k : Settled DetailsResult → Prog unit) : Prop :=
  ∀ s ui, run_sync (k s) ui
          = {| world := afterDetails s (world ui); pending := pending ui |}.

Definition afterCancel (s : Settled unit) (w : World) : World :=
  match s with
  | Fulfilled _ => w
  | Rejected e => perform (consoleError cancelFailedMessage e) w
  end.

Definition resumes_cancel (k : Settled unit → Prog unit) : Prop :=
  ∀ s ui, run_sync (k s) ui
          = {| world := afterCancel s (world ui); pending := pending ui |}.

Definition resumes (q : Pending) : Prop :=
  match q with
  | PendingDetails _ k => resumes_details k
  | PendingCancel k => resumes_cancel k
  end.

Record Inv (ui : UI) : Prop := {
  inv_resumes : Forall resumes (pending ui);
  inv_one : detailsInFlight ui ≤ 1;
  inv_loading :
    detailsInFlight ui = 1 → isLoadingDetails (props (world ui)) = true;
  inv_selection : Forall (λ sel, sel ≠ []) (calledSelections ui);
}.

End Runtime.

(* ===================================================================== *)
(** * The render body over a heap of JavaScript objects *)
(* ===================================================================== *)

Module Store.

Definition loc := positive.

Inductive val :=
| VUndefined
| VBool (b : bool)
| VNum (n : nat)
| VStr (s : string)
| VRef (l : loc).

(** Objects are maps from property names to values, arrays are lists of
    values; both live in the heap and are reached through references. *)
Inductive obj :=
| Object (fields : gmap string val)
| Array (elems : list val).

(** A computation reads and extends the heap; [None] stands for a
    [TypeError] (a property read on something that is not an object of
    the expected shape). *)
Definition M (A : Type) : Type := gmap loc obj → option A * gmap loc obj.

Definition ret {A} (a : A) : M A := λ h, (Some a, h).
Definition fail {A} : M A := λ h, (None, h).
Definition bind {A B} (m : M A) (f : A → M B) : M B :=
  λ h, match m h with
       | (Some a, h') => f a h'
       | (None, h') => (None, h')
       end.

Notation "x <- p ;; q" := (bind p (λ x, q))
  (at level 20, p at level 99, q at level 200, only parsing).

(** An object or array literal allocates a fresh heap cell. *)
Definition alloc (o : obj) : M val :=
  λ h, let l := fresh (dom h) in (Some (VRef l), <[l:=o]> h).

Definition getObject (v : val) : M (gmap string val) :=
  λ h, match v with
       | VRef l => match h !! l with
                   | Some (Object f) => (Some f, h)
                   | _ => (None, h)
                   end
       | _ => (None, h)
       end.

Definition getArray (v : val) : M (list val) :=
  λ h, match v with
       | VRef l => match h !! l with
                   | Some (Array vs) => (Some vs, h)
                   | _ => (None, h)
                   end
       | _ => (None, h)
       end.

(** [o.k]: a missing property reads as [undefined]. *)
Definition getField (v : val) (k : string) : M val :=
  f <- getObject v ;; ret (default VUndefined (f !! k)).

Definition getNum (v : val) (k : string) : M nat :=
  x <- getField v k ;;
  match x with VNum n => ret n | _ => fail end.

Definition truthy (v : val) : bool :=
  match v with
  | VUndefined => false
  | VBool b => b
  | VNum n => negb (Nat.eqb n 0)
  | VStr s => negb (Js.is_empty s)
  | VRef _ => true
  end.

Definition and_ (a b : val) : val := if truthy a then b else a.
Definition not_ (a : val) : val := VBool (negb (truthy a)).

Fixpoint mapM {A B} (f : A → M B) (l : list A) : M (list B) :=
  match l with
  | [] => ret []
  | x :: l' => y <- f x ;; ys <- mapM f l' ;; ret (y :: ys)
  end.

Fixpoint foldM {A B} (f : B → A → M B) (acc : B) (l : list A) : M B :=
  match l with
  | [] => ret acc
  | x :: l' => acc' <- f acc x ;; foldM f acc' l'
  end.

(** [a.map(f)] builds a new array. *)
Definition array_map (f : val → M val) (a : val) : M val :=
  elems <- getArray a ;;
  ys <- mapM f elems ;;
  alloc (Array ys).

(** [a.flatMap(f)] for a callback that returns arrays: a new array with
    the elements of the returned arrays, in order. *)
Definition array_flatMap (f : val → M val) (a : val) : M val :=
  elems <- getArray a ;;
  parts <- mapM (λ x, y <- f x ;; getArray y) elems ;;
  alloc (Array (concat parts)).

(** [a.reduce(f, init)] *)
Definition array_reduce (f : val → val → M val) (init : val) (a : val)
  : M val :=
  elems <- getArray a ;;
  foldM f init elems.

(** [{ ...bp, pillar: result.pillar, question: result.question,
       questionId: result.questionId }] *)
Definition enhance (result bp : val) : M val :=
  copied <- getObject bp ;;
  pillar <- getField result "pillar" ;;
  question <- getField result "question" ;;
  questionId <- getField result "questionId" ;;
  alloc (Object (<["questionId" := questionId]>
                 (<["question" := question]>
                  (<["pillar" := pillar]> copied)))).

Definition flattenedBestPractices (results : val) : M val :=
  array_flatMap
    (λ result,
       bps <- getField result "bestPractices" ;;
       array_map (enhance result) bps)
    results.

Definition one_if (v : val) : nat := if truthy v then 1 else 0.

Definition count_step (acc practice : val) : M val :=
  applied <- getNum acc "applied" ;;
  notApplied <- getNum acc "notApplied" ;;
  notRelevant <- getNum acc "notRelevant" ;;
  p_relevant <- getField practice "relevant" ;;
  p_applied <- getField practice "applied" ;;
  alloc (Object (<["notRelevant" := VNum (notRelevant + one_if (not_ p_relevant))]>
                 (<["notApplied" :=
                      VNum (notApplied + one_if (and_ p_relevant (not_ p_applied)))]>
                  (<["applied" :=
                       VNum (applied + one_if (and_ p_relevant p_applied))]> ∅)))).

Definition getBestPracticeCounts (practices : val) : M val :=
  init <- alloc (Object (<["notRelevant" := VNum 0]>
                         (<["notApplied" := VNum 0]>
                          (<["applied" := VNum 0]> ∅)))) ;;
  counts <- array_reduce count_step init practices ;;
  copied <- getObject counts ;;
  applied <- getNum counts "applied" ;;
  notApplied <- getNum counts "notApplied" ;;
  notRelevant <- getNum counts "notRelevant" ;;
  alloc (Object (<["totalReviewed" := VNum (applied + notApplied + notRelevant)]>
                 copied)).

(** The part of the render body that computes on [results]. *)
Definition render (results : val) : M (val * val) :=
  flat <- flattenedBestPractices results ;;
  counts <- getBestPracticeCounts flat ;;
  ret (flat, counts).

(** ** Heaps that hold the typed data of [Model] *)

Definition str_field (f : gmap string val) (k : string) (s : string) : Prop :=
  f !! k = Some (VStr s).
Definition bool_field (f : gmap string val) (k : string) (b : bool) : Prop :=
  f !! k = Some (VBool b).
Definition opt_field (f : gmap string val) (k : string) (o : option string)
  : Prop :=
  default VUndefined (f !! k) = from_option VStr VUndefined o.

Definition bp_fields (f : gmap string val) (bp : Model.BestPractice) : Prop :=
  str_field f "id" (Model.bp_id bp)
  ∧ str_field f "name" (Model.bp_name bp)
  ∧ bool_field f "relevant" (Model.bp_relevant bp)
  ∧ bool_field f "applied" (Model.bp_applied bp)
  ∧ opt_field f "reasonApplied" (Model.bp_reasonApplied bp)
  ∧ opt_field f "reasonNotApplied" (Model.bp_reasonNotApplied bp)
  ∧ opt_field f "recommendations" (Model.bp_recommendations bp).

Definition row_fields (f : gmap string val) (e : Model.EnhancedBestPractice)
  : Prop :=
  bp_fields f (Model.base e)
  ∧ str_field f "pillar" (Model.pillar e)
  ∧ str_field f "question" (Model.question e)
  ∧ str_field f "questionId" (Model.questionId e).

Definition is_object (P : gmap string val → Prop) (h : gmap loc obj) (v : val)
  : Prop :=
  ∃ l f, v = VRef l ∧ h !! l = Some (Object f) ∧ P f.

Definition is_array {A} (P : val → A → Prop) (h : gmap loc obj) (v : val)
    (xs : list A) : Prop :=
  ∃ l vs, v = VRef l ∧ h !! l = Some (Array vs) ∧ Forall2 P vs xs.

Definition is_bp (h : gmap loc obj) (v : val) (bp : Model.BestPractice) : Prop :=
  is_object (λ f, bp_fields f bp) h v.

Definition is_result (h : gmap loc obj) (v : val) (r : Model.AnalysisResult)
  : Prop :=
  is_object (λ f,
    str_field f "pillar" (Model.ar_pillar r)
    ∧ str_field f "question" (Model.ar_question r)
    ∧ str_field f "questionId" (Model.ar_questionId r)
    ∧ ∃ a, f !! "bestPractices" = Some a
           ∧ is_array (is_bp h) h a (Model.ar_bestPractices r)) h v.

Definition is_results (h : gmap loc obj) (v : val)
    (rs : list Model.AnalysisResult) : Prop :=
  is_array (is_result h) h v rs.

Definition is_row (h : gmap loc obj) (v : val) (e : Model.EnhancedBestPractice)
  : Prop :=
  is_object (λ f, row_fields f e) h v.

Definition is_counts (h : gmap loc obj) (v : val) (c : Model.CountsWithTotal)
  : Prop :=
  is_object (λ f,
    f !! "applied" = Some (VNum (Model.applied_count c))
    ∧ f !! "notApplied" = Some (VNum (Model.notApplied_count c))
    ∧ f !! "notRelevant" = Some (VNum (Model.notRelevant_count c))
    ∧ f !! "totalReviewed" = Some (VNum (Model.totalReviewed c))) h v.

Definition is_acc (h : gmap loc obj) (v : val) (c : Model.Counts) : Prop :=
  is_object (λ f,
    f !! "applied" = Some (VNum (Model.c_applied c))
    ∧ f !! "notApplied" = Some (VNum (Model.c_notApplied c))
    ∧ f !! "notRelevant" = Some (VNum (Model.c_notRelevant c))) h v.

Definition result_fields (f : gmap string val) (r : Model.AnalysisResult)
  : Prop :=
  str_field f "pillar" (Model.ar_pillar r)
  ∧ str_field f "question" (Model.ar_question r)
  ∧ str_field f "questionId" (Model.ar_questionId r).

(** A value that is a reference to a cell the heap [h] does not have. *)
Definition fresh_in (h : gmap loc obj) (v : val) : Prop :=
  ∃ l, v = VRef l ∧ h !! l = None.

(** [rows] are the rows of the result [r], all allocated after [h0]. *)
Definition rows_of (h0 h : gmap loc obj) (r : Model.AnalysisResult)
    (rows : list val) : Prop :=
  Forall2 (λ v e, is_row h v e ∧ fresh_in h0 v) rows
    (map (Model.enhance r) (Model.ar_bestPractices r)).

(** [m] never changes or removes a cell: it only adds cells. *)
Definition frame {A} (m : M A) : Prop := ∀ h, h ⊆ (m h).2.

(** From [h], [m] returns a result, keeps every cell of [h], and ends in
    a result and heap that satisfy [Q]. *)
Definition returns {A} (m : M A) (h : gmap loc obj)
    (Q : A → gmap loc obj → Prop) : Prop :=
  ∃ a h', m h = (Some a, h') ∧ h ⊆ h' ∧ Q a h'.

End Store.

(* ===================================================================== *)
(** * The words of the specification *)
(* ===================================================================== *)

Module Spec.

Fixpoint has_slash (s : string) : bool :=
  match s with
  | EmptyString => false
  | String c s' => Ascii.eqb c "/" || has_slash s'
  end.

(** [seg] is the substring of [s] after its last ['/'], the whole of [s]
    when [s] contains no ['/']. *)
Definition is_last_segment (s seg : string) : Prop :=
  has_slash seg = false ∧ (s = seg ∨ ∃ pre, s = pre +:+ "/" +:+ seg).

(** The same, computed. *)
Fixpoint lastSegment (s : string) : string :=
  match s with
  | EmptyString => EmptyString
  | String c s' =>
      if Ascii.eqb c "/" || has_slash s' then lastSegment s' else s
  end.

End Spec.

(* ===================================================================== *)
(** * Sample inputs *)
(* ===================================================================== *)

Module Samples.
Import Model Effects Runtime.

Definition bp1 : BestPractice :=
  {| bp_id := "sec_securely_operate_multi_accounts";
     bp_name := "Separate workloads using accounts";
     bp_relevant := true; bp_applied := false;
     bp_reasonApplied := None;
     bp_reasonNotApplied := Some "A single account hosts every workload";
     bp_recommendations := Some "Use one account per workload" |}.

Definition bp2 : BestPractice :=
  {| bp_id := "sec_securely_operate_aws_account";
     bp_name := "Secure account root user and properties";
     bp_relevant := true; bp_applied := true;
     bp_reasonApplied := Some "MFA is enforced on the root user";
     bp_reasonNotApplied := None;
     bp_recommendations := None |}.

Definition bp3 : BestPractice :=
  {| bp_id := "rel_withstand_component_failures_static_stability";
     bp_name := "Use static stability to prevent bimodal behavior";
     bp_relevant := false; bp_applied := false;
     bp_reasonApplied := None; bp_reasonNotApplied := None;
     bp_recommendations := None |}.

Definition result1 : AnalysisResult :=
  {| ar_pillar := "Security";
     ar_question := "How do you securely operate your workload?";
     ar_questionId := "securely-operate";
     ar_bestPractices := [bp1; bp2] |}.

Definition result2 : AnalysisResult :=
  {| ar_pillar := "Reliability";
     ar_question := "How do you design your workload to withstand component failures?";
     ar_questionId := "withstand-component-failures";
     ar_bestPractices := [bp3] |}.

Definition sampleResults : list AnalysisResult := [result1; result2].

Definition sampleProps (fileType : string) : Props :=
  {| results := sampleResults; isAnalyzing := false;
     isDownloading := false; isImplementing := false;
     isLoadingDetails := false; uploadedFileType := fileType;
     selectedIaCType := "CloudFormation (.yaml) template";
     fileId := "file-1"; fileName := "architecture.png";
     lensAliasArn := Some "arn:aws:wellarchitected::aws:lens/wellarchitected";
     lensName := "AWS Well-Architected Framework";
     outputLanguage := "en" |}.

(** Three API clients: one that answers with content, one that answers
    without, one whose calls throw an [Error]. *)
Definition answering (c : option string) : Api :=
  {| respond := λ R (call : ApiCall R),
       match call in ApiCall R return Settled R with
       | getMoreDetails _ => Fulfilled {| content := c; error := None |}
       | cancelIaCGeneration => Fulfilled tt
       end |}.

Definition failing : Api :=
  {| respond := λ R (call : ApiCall R), Rejected (ErrorObject "Network Error") |}.

(** A heap holding [result2] as the only element of the results array. *)
Definition sampleHeap : gmap Store.loc Store.obj :=
  <[4%positive := Store.Object
       (<["id" := Store.VStr (bp_id bp3)]>
        (<["name" := Store.VStr (bp_name bp3)]>
         (<["relevant" := Store.VBool false]>
          (<["applied" := Store.VBool false]> ∅))))]>
  (<[3%positive := Store.Array [Store.VRef 4%positive]]>
   (<[2%positive := Store.Object
        (<["pillar" := Store.VStr (ar_pillar result2)]>
         (<["question" := Store.VStr (ar_question result2)]>
          (<["questionId" := Store.VStr (ar_questionId result2)]>
           (<["bestPractices" := Store.VRef 3%positive]> ∅))))]>
    (<[1%positive := Store.Array [Store.VRef 2%positive]]> ∅))).

End Samples.

(* ===================================================================== *)
(** * The rest of the render body *)
(* ===================================================================== *)

Module View.
Import Model Effects Runtime.

(** The [type] prop of the toolkit's [StatusIndicator]. *)
Inductive IndicatorType :=
| typeInfo
| typeSuccess
| typeError
| typeStopped
| typeLoading.

Definition IndicatorType_eqb (a b : IndicatorType) : bool :=
  match a, b with
  | typeInfo, typeInfo | typeSuccess, typeSuccess | typeError, typeError
  | typeStopped, typeStopped | typeLoading, typeLoading => true
  | _, _ => false
  end.

(** The entries of the localized [strings] object that the summary and the
    status column show. *)
Inductive StringKey :=
| commonLoading
| bestPracticesReviewed
| bestPracticesApplied
| bestPracticesNotApplied
| bestPracticesNotRelevant
| notRelevantString
| appliedString
| notAppliedString.

Inductive Content :=
| Localized (k : StringKey)
| Number (n : nat).

(** [<StatusIndicator type={..}>{children}</StatusIndicator>]; the [type]
    prop is optional. *)
Record StatusIndicator := {
  indicatorType : option IndicatorType;
  children : Content;
}.

(** The cell of the [status] column. *)
Definition statusCell (item : EnhancedBestPractice) : StatusIndicator :=
  if negb (relevant item)
  then {| indicatorType := Some typeStopped;
          children := Localized notRelevantString |}
  else {| indicatorType := Some (if applied item then typeSuccess else typeError);
          children := Localized (if applied item then appliedString
                                 else notAppliedString) |}.

(** The cell of the [reason] column. *)
Definition reasonCell (item : EnhancedBestPractice) : Js.value :=
  if negb (relevant item) then Js.Str "N/A"
  else if applied item then Js.of_opt (reasonApplied item)
  else Js.of_opt (reasonNotApplied item).

Definition loadingIndicator : StatusIndicator :=
  {| indicatorType := Some typeLoading; children := Localized commonLoading |}.

(** The [items] of the [KeyValuePairs] above the table. *)
Definition summaryItems (p : Props) : list (StringKey * StatusIndicator) :=
  let c := getBestPracticeCounts (flattenedBestPractices (results p)) in
  [ (bestPracticesReviewed,
     if isAnalyzing p then loadingIndicator
     else {| indicatorType := Some typeInfo;
             children := Number (totalReviewed c) |});
    (bestPracticesApplied,
     if isAnalyzing p then loadingIndicator
     else {| indicatorType := None; children := Number (applied_count c) |});
    (bestPracticesNotApplied,
     if isAnalyzing p then loadingIndicator
     else {| indicatorType := Some typeError;
             children := Number (notApplied_count c) |});
    (bestPracticesNotRelevant,
     if isAnalyzing p then loadingIndicator
     else {| indicatorType := Some typeStopped;
             children := Number (notRelevant_count c) |}) ].

(** The rows of a list whose status cell has a given type. *)
Definition withStatus (t : IndicatorType) (rows : list EnhancedBestPractice)
  : list EnhancedBestPractice :=
  filter (λ item,
            match indicatorType (statusCell item) with
            | Some t' => IndicatorType_eqb t' t
            | None => false
            end = true) rows.

Definition hasChatButton (item : EnhancedBestPractice) : bool :=
  match recommendationsCell item with
  | TextWithChatButton _ _ => true
  | Text _ => false
  end.

(** ** Table preferences *)

Record PreferencesType := {
  pageSize : nat;
  visibleContent : list string;
}.

Definition initialPreferences : PreferencesType :=
  {| pageSize := 10;
     visibleContent :=
       ["pillar"; "question"; "name"; "status"; "reason"; "recommendations"] |}.

(** The [detail] of the [onConfirm] event of [CollectionPreferences]: both
    fields are optional. *)
Record ConfirmDetail := {
  detail_pageSize : option nat;
  detail_visibleContent : option (list string);
}.

(** [setPreferences({ pageSize: detail.pageSize || 10,
                     visibleContent: detail.visibleContent || [] })]:
    [0] and [undefined] are falsy, an array never is. *)
Definition onConfirm (detail : ConfirmDetail) : PreferencesType :=
  {| pageSize := match detail_pageSize detail with
                 | Some n => if Nat.eqb n 0 then 10 else n
                 | None => 10
                 end;
     visibleContent := default [] (detail_visibleContent detail) |}.

(** [preferences.visibleContent.map(id => ({ id, visible: true }))] *)
Definition columnDisplay (prefs : PreferencesType) : list (string * bool) :=
  map (λ id, (id, true)) (visibleContent prefs).

(** The preferences after a sequence of confirmations. *)
Definition confirmAll (details : list ConfirmDetail) : PreferencesType :=
  fold_left (λ _ detail, onConfirm detail) details initialPreferences.

(** ** Selection labels *)

(** [selectedItems.filter(i => i.id === item.id).length > 0] *)
Definition isItemSelected (selected : list EnhancedBestPractice)
    (item : EnhancedBestPractice) : bool :=
  Nat.ltb 0 (length (filter (λ i, String.eqb (id i) (id item) = true) selected)).

(** [itemSelectionLabel]; [notSelected] is [strings.common.notSelected]. *)
Definition itemSelectionLabel (notSelected : string)
    (selected : list EnhancedBestPractice) (item : EnhancedBestPractice)
  : string :=
  dquote +:+ name item +:+ dquote +:+ " is "
  +:+ (if isItemSelected selected item then EmptyString else notSelected).

(** ** The details modal *)



(** [Array.prototype.join] with a one-character separator. *)
Fixpoint join (sep : ascii) (pieces : list string) : string :=
  match pieces with
  | [] => EmptyString
  | [piece] => piece
  | piece :: rest => piece +:+ String sep (join sep rest)
  end.


Fixpoint all_chars (f : ascii → bool) (s : string) : bool :=
  match s with
  | EmptyString => true
  | String c s' => f c && all_chars f s'
  end.

End View.

(* ===================================================================== *)
(** * More observations of the click loop *)
(* ===================================================================== *)

Module Loop.
Import Model Effects Runtime.

Definition is_download_call (ev : Event) : bool :=
  match ev with
  | Did onDownloadRecommendations => true
  | _ => false
  end.

Definition is_cancel_call (ev : Event) : bool :=
  match ev with
  | @Called _ cancelIaCGeneration => true
  | _ => false
  end.

Definition downloadCalls (ui : UI) : nat :=
  length (filter (λ ev, is_download_call ev = true) (trace (world ui))).
Definition cancelCalls (ui : UI) : nat :=
  length (filter (λ ev, is_cancel_call ev = true) (trace (world ui))).

(** The prompts the chat was opened with, in order. *)
Definition chatPrompts (ui : UI) : list string :=
  omap (λ ev, match ev with
              | Did (openChatWithSupportPrompt prompt) => Some prompt
              | _ => None
              end) (trace (world ui)).

(** The messages [setError] was called with, in order. *)
Definition errorsSet (ui : UI) : list (option string) :=
  omap (λ ev, match ev with
              | Did (setError e) => Some e
              | _ => None
              end) (trace (world ui)).

Definition downloadDisabled (ui : UI) : bool :=
  isDownloading (props (world ui)) || isImplementing (props (world ui)).

(** The prompt a click on the chat icon of a row sends, if the row has
    the icon. *)
Definition chatClick (ui : UI) (ev : UIEvent) : list string :=
  match ev with
  | ClickChat row =>
      match flattenedBestPractices (results (props (world ui))) !! row with
      | Some item =>
          if View.hasChatButton item then [chatPrompt item] else []
      | None => []
      end
  | _ => []
  end.

(** What the modal can rely on: it is only visible with content, and its
    error is never the empty string. *)
Definition ModalInv (st : CompState) : Prop :=
  (detailsModalVisible st = true → detailsContent st ≠ EmptyString)
  ∧ detailsError st ≠ Some EmptyString.

End Loop.

(* ===================================================================== *)
(** * More observations of the heap *)
(* ===================================================================== *)

Module Heap.
Import Store.

(** [m] throws from [h] and from every heap that extends it. *)
Definition throws_from {A} (h : gmap loc obj) (m : M A) : Prop :=
  ∀ h', h ⊆ h' → (m h').1 = None.

(** [v.k] read off the heap, [undefined] when [v] is not an object. *)
Definition field_of (h : gmap loc obj) (v : val) (k : string) : val :=
  match v with
  | VRef l => match h !! l with
              | Some (Object f) => default VUndefined (f !! k)
              | _ => VUndefined
              end
  | _ => VUndefined
  end.

(** One step of the [reduce] on the typed accumulator, for a row whose
    fields may hold any value. *)
Definition bump (h : gmap loc obj) (c : Model.Counts) (v : val) : Model.Counts :=
  let relevant := field_of h v "relevant" in
  let applied := field_of h v "applied" in
  {| Model.c_applied := Model.c_applied c + one_if (and_ relevant applied);
     Model.c_notApplied :=
       Model.c_notApplied c + one_if (and_ relevant (not_ applied));
     Model.c_notRelevant := Model.c_notRelevant c + one_if (not_ relevant) |}.

Definition is_some_object (h : gmap loc obj) (v : val) : Prop :=
  is_object (λ _, True) h v.

(** Loosely typed data: a row with a string for [applied] and its own
    [pillar], an empty row, and a result that has neither a [questionId]
    nor [bestPractices]. *)
Definition looseRow : gmap string val :=
  <["relevant" := VBool true]>
  (<["applied" := VStr "yes"]> (<["pillar" := VStr "stale"]> ∅)).

Definition looseResult : gmap string val :=
  <["pillar" := VStr "Security"]>
  (<["question" := VStr "How is access managed?"]> ∅).

Definition looseHeap : gmap loc obj :=
  <[5%positive := Array [VRef 4%positive]]>
  (<[4%positive := Object looseResult]>
   (<[3%positive := Object ∅]>
    (<[2%positive := Object looseRow]>
     (<[1%positive := Array [VRef 2%positive; VRef 3%positive]]> ∅)))).

End Heap.

(* ===================================================================== *)
(** * Flattening and counting *)
(* ===================================================================== *)

Section Flatten.
Import Model.

Lemma flattened_cons r rs :
  flattenedBestPractices (r :: rs)
  = map (enhance r) (ar_bestPractices r) ++ flattenedBestPractices rs.
Proof. reflexivity. Qed.

Lemma rowOffset_0 rs : rowOffset rs 0 = 0.
Proof. unfold rowOffset. by rewrite take_0. Qed.

Lemma rowOffset_S r rs i :
  rowOffset (r :: rs) (S i) = length (ar_bestPractices r) + rowOffset rs i.
Proof. reflexivity. Qed.

Lemma flattened_length rs :
  length (flattenedBestPractices rs)
  = sum_list_with (λ r, length (ar_bestPractices r)) rs.
Proof.
  induction rs as [|r rs IH]; [done|].
  rewrite flattened_cons, length_app, length_map, IH. reflexivity.
Qed.

Lemma flattened_lookup rs : ∀ i j r bp,
  rs !! i = Some r →
  ar_bestPractices r !! j = Some bp →
  flattenedBestPractices rs !! (rowOffset rs i + j) = Some (enhance r bp).
Proof.
  induction rs as [|r0 rs IH]; intros i j r bp Hi Hj; [done|].
  rewrite flattened_cons. destruct i as [|i]; simpl in Hi.
  - injection Hi as ->. rewrite rowOffset_0. simpl.
    rewrite lookup_app_l.
    + by rewrite list_lookup_fmap, Hj.
    + rewrite length_map. by eapply lookup_lt_Some.
  - rewrite rowOffset_S, lookup_app_r; rewrite length_map; [|lia].
    replace (length (ar_bestPractices r0) + rowOffset rs i + j
             - length (ar_bestPractices r0)) with (rowOffset rs i + j) by lia.
    by apply IH.
Qed.

Lemma flattened_lookup_inv rs : ∀ k row,
  flattenedBestPractices rs !! k = Some row →
  ∃ i j r bp, rs !! i = Some r ∧ ar_bestPractices r !! j = Some bp
              ∧ k = rowOffset rs i + j ∧ row = enhance r bp.
Proof.
  induction rs as [|r0 rs IH]; intros k row Hk; [done|].
  rewrite flattened_cons in Hk.
  apply lookup_app_Some in Hk as [Hk | [Hge Hk]].
  - rewrite list_lookup_fmap in Hk.
    destruct (ar_bestPractices r0 !! k) as [bp|] eqn:Hbp; [|done].
    injection Hk as <-. exists 0, k, r0, bp.
    by rewrite rowOffset_0.
  - rewrite length_map in Hge, Hk.
    destruct (IH _ _ Hk) as (i & j & r & bp & Hi & Hj & Hoff & ->).
    exists (S i), j, r, bp. rewrite rowOffset_S. repeat split; [done..|lia].
Qed.

Lemma rowOffset_next rs i r :
  rs !! i = Some r →
  rowOffset rs (S i) = rowOffset rs i + length (ar_bestPractices r).
Proof.
  intros Hi. unfold rowOffset.
  rewrite (take_S_r _ _ _ Hi), sum_list_with_app. simpl. lia.
Qed.

Lemma rowOffset_mono rs (i i' : nat) :
  i ≤ i' → rowOffset rs i ≤ rowOffset rs i'.
Proof.
  induction 1 as [|i' _ IH]; [done|].
  destruct (rs !! i') as [r|] eqn:Hr.
  - rewrite (rowOffset_next _ _ _ Hr). lia.
  - unfold rowOffset in *. apply lookup_ge_None in Hr.
    rewrite (take_ge rs (S i')) by lia.
    by rewrite (take_ge rs i') in IH by lia.
Qed.

Lemma rowOffset_order rs (i i' j j' : nat) r r' :
  rs !! i = Some r → rs !! i' = Some r' →
  j < length (ar_bestPractices r) →
  j' < length (ar_bestPractices r') →
  rowOffset rs i + j < rowOffset rs i' + j' ↔ i < i' ∨ (i = i' ∧ j < j').
Proof.
  intros Hi Hi' Hj Hj'.
  pose proof (rowOffset_next _ _ _ Hi) as Hn.
  pose proof (rowOffset_next _ _ _ Hi') as Hn'.
  destruct (Nat.lt_trichotomy i i') as [Hlt | [-> | Hgt]].
  - pose proof (rowOffset_mono rs (S i) i' ltac:(lia)). split; [auto|lia].
  - split; [intros; right; split; [done|lia] | intros [?|[_ ?]]; lia].
  - pose proof (rowOffset_mono rs (S i') i ltac:(lia)). split; lia.
Qed.

Lemma base_enhance r bp : base (enhance r bp) = bp.
Proof. by destruct bp. Qed.

Lemma tally_cons f p l :
  tally f (p :: l) = (if f p then 1 else 0) + tally f l.
Proof.
  unfold tally. rewrite filter_cons.
  destruct (f p); case_decide; simpl; congruence.
Qed.

Lemma reduce_counts l : ∀ acc,
  fold_left count_step l acc
  = {| c_applied := c_applied acc + tally bucket_applied l;
       c_notApplied := c_notApplied acc + tally bucket_notApplied l;
       c_notRelevant := c_notRelevant acc + tally bucket_notRelevant l |}.
Proof.
  induction l as [|p l IH]; intros [a n r].
  - unfold tally. simpl. f_equal; lia.
  - simpl fold_left. rewrite IH, !tally_cons. unfold count_step. simpl.
    unfold bucket_applied, bucket_notApplied, bucket_notRelevant.
    f_equal; lia.
Qed.

Lemma buckets_partition l :
  tally bucket_applied l + tally bucket_notApplied l
  + tally bucket_notRelevant l = length l.
Proof.
  induction l as [|p l IH]; [done|].
  rewrite !tally_cons. simpl length.
  unfold bucket_applied at 1, bucket_notApplied at 1, bucket_notRelevant at 1.
  destruct (relevant p), (applied p); cbn [andb negb]; lia.
Qed.

End Flatten.

(** C1.  The flattened list has one row per best practice of each result:
    the row of the [j]-th best practice of the [i]-th result sits at index
    [rowOffset results i + j] (so rows come in result order, then in
    best-practice order), it is that best practice extended with the
    parent's [pillar], [question] and [questionId], every row arises this
    way, and the length is the sum of the lengths of the [bestPractices]
    arrays. *)
Theorem flattenedBestPractices_rows (results : list Model.AnalysisResult) :
  length (Model.flattenedBestPractices results)
  = sum_list_with (λ r, length (Model.ar_bestPractices r)) results
  ∧ (∀ i j r bp,
       results !! i = Some r →
       Model.ar_bestPractices r !! j = Some bp →
       ∃ row,
         Model.flattenedBestPractices results !! (Model.rowOffset results i + j)
         = Some row
         ∧ Model.base row = bp
         ∧ Model.pillar row = Model.ar_pillar r
         ∧ Model.question row = Model.ar_question r
         ∧ Model.questionId row = Model.ar_questionId r)
  ∧ (∀ k row,
       Model.flattenedBestPractices results !! k = Some row →
       ∃ i j r bp,
         results !! i = Some r ∧ Model.ar_bestPractices r !! j = Some bp
         ∧ k = Model.rowOffset results i + j ∧ row = Model.enhance r bp)
  ∧ (∀ (i i' j j' : nat) r r',
       results !! i = Some r → results !! i' = Some r' →
       j < length (Model.ar_bestPractices r) →
       j' < length (Model.ar_bestPractices r') →
       (Model.rowOffset results i + j < Model.rowOffset results i' + j'
        ↔ i < i' ∨ (i = i' ∧ j < j'))).
Proof.
  split; [apply flattened_length|].
  split; [|split; [apply flattened_lookup_inv | apply rowOffset_order]].
  intros i j r bp Hi Hj. exists (Model.enhance r bp).
  split; [by apply flattened_lookup|].
  by rewrite base_enhance.
Qed.

(** C5.  [getBestPracticeCounts] partitions its input: [applied] counts the
    items with [relevant && applied], [notApplied] those with
    [relevant && !applied], [notRelevant] those with [!relevant];
    [totalReviewed] is their sum and equals the length of the input, and
    every item falls in exactly one bucket. *)
Theorem getBestPracticeCounts_partition
    (practices : list Model.EnhancedBestPractice) :
  let c := Model.getBestPracticeCounts practices in
  Model.applied_count c
  = length (filter (λ p, Model.relevant p && Model.applied p = true) practices)
  ∧ Model.notApplied_count c
    = length (filter (λ p, Model.relevant p && negb (Model.applied p) = true)
                     practices)
  ∧ Model.notRelevant_count c
    = length (filter (λ p, negb (Model.relevant p) = true) practices)
  ∧ Model.totalReviewed c
    = Model.applied_count c + Model.notApplied_count c
      + Model.notRelevant_count c
  ∧ Model.totalReviewed c = length practices
  ∧ Forall (λ p, Nat.b2n (Model.relevant p && Model.applied p)
                 + Nat.b2n (Model.relevant p && negb (Model.applied p))
                 + Nat.b2n (negb (Model.relevant p)) = 1) practices.
Proof.
  unfold Model.getBestPracticeCounts. rewrite reduce_counts. simpl.
  repeat split.
  - rewrite <- (buckets_partition practices). reflexivity.
  - apply Forall_forall. intros p _.
    by destruct (Model.relevant p), (Model.applied p).
Qed.

(* ===================================================================== *)
(** * The handlers *)
(* ===================================================================== *)

Section Handlers.
Import Model Effects Runtime.

Lemma emitted_app w w' evs :
  trace w' = trace w ++ evs → emitted w w' = evs.
Proof. unfold emitted. intros ->. by rewrite drop_app_length. Qed.

Lemma trace_perform act w : trace (perform act w) = trace w ++ [Did act].
Proof. by destruct act. Qed.

Lemma trace_log ev w : trace (log ev w) = trace w ++ [ev].
Proof. reflexivity. Qed.

Lemma handleGetMoreDetails_exec api p st w :
  exec api (handleGetMoreDetails p st) w
  = (Returned tt,
     afterDetails (respond api _ (getMoreDetails (detailsArgs p st)))
       (log (Called (getMoreDetails (detailsArgs p st)))
          (perform (setDetailsError None)
             (perform (setIsLoadingDetails true) w)))).
Proof.
  unfold handleGetMoreDetails, afterDetails. simpl.
  destruct (respond api _ _) as [[c e]|[m|v]]; simpl; [|done..].
  destruct e as [[|? ?]|], c as [[|? ?]|]; reflexivity.
Qed.

Lemma handleCancelGeneration_exec api w :
  exec api handleCancelGeneration w
  = (Returned tt,
     match respond api _ cancelIaCGeneration with
     | Fulfilled _ => log (Called cancelIaCGeneration) w
     | Rejected e =>
         perform (consoleError cancelFailedMessage e)
           (log (Called cancelIaCGeneration) w)
     end).
Proof.
  unfold handleCancelGeneration. simpl.
  by destruct (respond api _ _) as [[]|e].
Qed.

End Handlers.

Ltac emit :=
  unfold Runtime.emitted, Runtime.afterDetails, Js.if_truthy,
    Runtime.perform, Runtime.log;
  simpl; rewrite <- ?app_assoc; rewrite drop_app_length; simpl.

(** C2.  [handleGetMoreDetails] calls [analyzerApi.getMoreDetails] once,
    with the selected items, [fileId], [selectedIaCType], [lensAliasArn],
    [lensName] and [outputLanguage].  When the result has a non-empty
    [content], the content is stored and the details modal is made visible;
    when it has none, [setError] is called with the fixed message and the
    modal is not opened. *)
Theorem handleGetMoreDetails_request
    (api : Runtime.Api) (p : Model.Props) (st : Model.CompState)
    (w : Runtime.World) :
  let req :=
    Effects.getMoreDetails
      {| Effects.arg_selectedItems := Model.selectedItems st;
         Effects.arg_fileId := Model.fileId p;
         Effects.arg_selectedIaCType := Model.selectedIaCType p;
         Effects.arg_lensAliasArn := Model.lensAliasArn p;
         Effects.arg_lensName := Model.lensName p;
         Effects.arg_outputLanguage := Model.outputLanguage p |} in
  let w' := (Runtime.exec api (Effects.handleGetMoreDetails p st) w).2 in
  filter (λ ev, Runtime.is_api_call ev = true) (Runtime.emitted w w')
  = [Runtime.Called req]
  ∧ (∀ result c,
       Runtime.respond api _ req = Effects.Fulfilled result →
       Effects.content result = Some c → c ≠ EmptyString →
       Model.detailsContent (Runtime.state w') = c
       ∧ Model.detailsModalVisible (Runtime.state w') = true
       ∧ Runtime.Did (Effects.setDetailsContent c) ∈ Runtime.emitted w w'
       ∧ Runtime.Did (Effects.setDetailsModalVisible true)
         ∈ Runtime.emitted w w')
  ∧ (∀ result,
       Runtime.respond api _ req = Effects.Fulfilled result →
       Effects.content result = None
       ∨ Effects.content result = Some EmptyString →
       Runtime.Did (Effects.setError
                      (Some "No content received from analysis. Please try again."))
       ∈ Runtime.emitted w w'
       ∧ Runtime.shownError w'
         = Some "No content received from analysis. Please try again."
       ∧ (∀ v, Runtime.Did (Effects.setDetailsModalVisible v)
               ∉ Runtime.emitted w w')
       ∧ Model.detailsModalVisible (Runtime.state w')
         = Model.detailsModalVisible (Runtime.state w)).
Proof.
  intros req w'. subst w'. rewrite handleGetMoreDetails_exec.
  unfold Effects.detailsArgs. fold req. simpl snd.
  split; [|split].
  - destruct (Runtime.respond api _ req) as [[[[|? ?]|] [[|? ?]|]]|[m|v]];
      emit; reflexivity.
  - intros [c' e] c -> Hc Hne. simpl in Hc. subst c'.
    destruct c as [|a c]; [done|].
    destruct e as [[|? ?]|]; emit;
      (split; [done|split; [done|]]); split; set_solver.
  - intros [c e] -> Hc. simpl in Hc.
    destruct Hc as [-> | ->]; destruct e as [[|? ?]|]; emit.
    all: split; [set_solver|split; [done|split; [|done]]].
    all: intros v; rewrite ?elem_of_cons, elem_of_nil; intros Hv.
    all: destruct_or!; discriminate.
Qed.

(** C3.  Whatever the API call does, [handleGetMoreDetails] first calls
    [setIsLoadingDetails(true)], last calls [setIsLoadingDetails(false)],
    and returns normally; when the call throws, [setError] receives the
    message of the [Error], or the fixed text for any other thrown value. *)
Theorem handleGetMoreDetails_loading
    (api : Runtime.Api) (p : Model.Props) (st : Model.CompState)
    (w : Runtime.World) :
  let r := Runtime.exec api (Effects.handleGetMoreDetails p st) w in
  r.1 = Runtime.Returned tt
  ∧ (∃ mid,
       Runtime.emitted w r.2
       = [Runtime.Did (Effects.setIsLoadingDetails true)] ++ mid
         ++ [Runtime.Did (Effects.setIsLoadingDetails false)])
  ∧ Model.isLoadingDetails (Runtime.props r.2) = false
  ∧ (∀ e,
       Runtime.respond api _ (Effects.getMoreDetails (Effects.detailsArgs p st))
       = Effects.Rejected e →
       let msg := match e with
                  | Effects.ErrorObject message => message
                  | Effects.OtherThrown _ => "Failed to get detailed analysis"
                  end in
       Runtime.Did (Effects.setError (Some msg)) ∈ Runtime.emitted w r.2
       ∧ Runtime.shownError r.2 = Some msg).
Proof.
  intros r. subst r. rewrite handleGetMoreDetails_exec. simpl fst. simpl snd.
  split; [done|]. split; [|split].
  - destruct (Runtime.respond api _ _) as [[[[|? ?]|] [[|? ?]|]]|[m|v]];
      emit;
      match goal with
      | |- ∃ mid, ?l = _ => by exists (removelast (tail l))
      end.
  - unfold Runtime.afterDetails. reflexivity.
  - intros e -> msg. subst msg. destruct e; emit; (split; [set_solver|done]).
Qed.

(** C7.  [handleCancelGeneration] calls [analyzerApi.cancelIaCGeneration()]
    and returns; when the call rejects, the only further effect is one
    [console.error], and neither the props, the component state nor the
    error banner change.  The cancel button is among the header actions
    exactly when [isImplementing] holds. *)
Theorem handleCancelGeneration_forwards
    (api : Runtime.Api) (p : Model.Props) (st : Model.CompState)
    (w : Runtime.World) :
  let r := Runtime.exec api Effects.handleCancelGeneration w in
  r.1 = Runtime.Returned tt
  ∧ Runtime.emitted w r.2
    = Runtime.Called Effects.cancelIaCGeneration
      :: match Runtime.respond api _ Effects.cancelIaCGeneration with
         | Effects.Fulfilled _ => []
         | Effects.Rejected e =>
             [Runtime.Did
                (Effects.consoleError "Failed to cancel IaC generation:" e)]
         end
  ∧ Runtime.props r.2 = Runtime.props w
  ∧ Runtime.state r.2 = Runtime.state w
  ∧ Runtime.shownError r.2 = Runtime.shownError w
  ∧ Effects.findButton Effects.cancelIacGenerationLabel
      (Effects.headerActions p st)
    = if Model.isImplementing p
      then Some {| Effects.label := Effects.cancelIacGenerationLabel;
                   Effects.onClick := Effects.handleCancelGeneration;
                   Effects.loading := false;
                   Effects.disabled := false;
                   Effects.iconName := "close" |}
      else None.
Proof.
  intros r. subst r. rewrite handleCancelGeneration_exec. simpl fst. simpl snd.
  split; [done|]. split; [|repeat split].
  - destruct (Runtime.respond api _ _) as [[]|e]; emit; reflexivity.
  - by destruct (Runtime.respond api _ _) as [[]|e].
  - by destruct (Runtime.respond api _ _) as [[]|e].
  - by destruct (Runtime.respond api _ _) as [[]|e].
  - unfold Effects.findButton, Effects.headerActions.
    by destruct (Model.isImplementing p).
Qed.

(** C8.  The chat icon of a row calls [openChatWithSupportPrompt] with the
    prompt built from the row's [name] and [pillar]; the icon is part of
    the recommendations cell exactly for rows that are relevant, not
    applied and have non-empty recommendations, and the cell reads 'N/A'
    otherwise. *)
Theorem handleAiChatClick_prompt
    (api : Runtime.Api) (item : Model.EnhancedBestPractice)
    (w : Runtime.World) :
  Runtime.exec api (Effects.handleAiChatClick item) w
  = (Runtime.Returned tt,
     Runtime.log
       (Runtime.Did
          (Effects.openChatWithSupportPrompt
             ("Can you provide more detailed recommendations and instructions for the best practice '"
              +:+ Model.name item +:+ "' of the '" +:+ Model.pillar item
              +:+ "' pillar?"))) w)
  ∧ Effects.recommendationsCell item
    = (if Model.relevant item && negb (Model.applied item)
          && Js.truthy (Js.of_opt (Model.recommendations item))
       then Effects.TextWithChatButton
              (Js.of_opt (Model.recommendations item))
              (Effects.handleAiChatClick item)
       else Effects.Text (Js.Str "N/A"))
  ∧ ((∃ text h, Effects.recommendationsCell item
                = Effects.TextWithChatButton text h)
     ↔ Model.relevant item = true ∧ Model.applied item = false
       ∧ ∃ s, Model.recommendations item = Some s ∧ s ≠ EmptyString).
Proof.
  split; [by destruct w|].
  unfold Effects.recommendationsCell.
  destruct (Model.relevant item), (Model.applied item),
    (Model.recommendations item) as [[|c s]|]; simpl;
    (split; [reflexivity|]).
  all: split; [intros (text & h & Heq); try discriminate
              | intros (Hr & Ha & s' & Hs & Hne); try discriminate].
  all: try (injection Hs as <-; done).
  - repeat split. by eexists.
  - by do 2 eexists.
Qed.

(* ===================================================================== *)
(** * The lens alias *)
(* ===================================================================== *)

Section LensAlias.
Import Model Spec.

Lemma split_no_slash s : has_slash s = false → Js.split "/" s = [s].
Proof.
  induction s as [|c s IH]; [done|]. simpl.
  destruct (Ascii.eqb c "/"); [done|]. simpl. by intros ->%IH.
Qed.

Lemma split_slash s :
  has_slash s = true → ∃ a b rest, Js.split "/" s = a :: b :: rest.
Proof.
  induction s as [|c s IH]; [done|]. simpl.
  destruct (Ascii.eqb c "/"); simpl.
  - intros _. destruct (has_slash s) eqn:Hs.
    + destruct (IH eq_refl) as (a & b & rest & ->). by do 3 eexists.
    + rewrite (split_no_slash _ Hs). by do 3 eexists.
  - intros (a & b & rest & ->)%IH. by do 3 eexists.
Qed.

Lemma pop_split s : Js.pop (Js.split "/" s) = Some (lastSegment s).
Proof.
  induction s as [|c s IH]; [done|]. simpl.
  destruct (Ascii.eqb c "/"); simpl.
  - destruct (has_slash s) eqn:Hs.
    + destruct (split_slash _ Hs) as (a & b & rest & Heq).
      by rewrite Heq in *.
    + by rewrite (split_no_slash _ Hs) in *.
  - destruct (has_slash s) eqn:Hs.
    + destruct (split_slash _ Hs) as (a & b & rest & Heq).
      by rewrite Heq in *.
    + by rewrite (split_no_slash _ Hs).
Qed.

Lemma lastSegment_no_slash s : has_slash s = false → lastSegment s = s.
Proof.
  destruct s as [|c s]; [done|]. simpl. by intros ->.
Qed.

Lemma has_slash_lastSegment s : has_slash (lastSegment s) = false.
Proof.
  induction s as [|c s IH]; [done|]. simpl.
  by destruct (Ascii.eqb c "/" || has_slash s) eqn:Hc.
Qed.

Lemma has_slash_app pre seg : has_slash (pre +:+ "/" +:+ seg) = true.
Proof.
  induction pre as [|c pre IH]; [done|]. simpl. rewrite IH.
  by destruct (Ascii.eqb c "/").
Qed.

Lemma lastSegment_app pre seg :
  has_slash seg = false → lastSegment (pre +:+ "/" +:+ seg) = seg.
Proof.
  intros Hseg. induction pre as [|c pre IH]; simpl.
  - by apply lastSegment_no_slash.
  - rewrite has_slash_app. by destruct (Ascii.eqb c "/").
Qed.

Lemma lastSegment_decompose s :
  s = lastSegment s ∨ ∃ pre, s = pre +:+ "/" +:+ lastSegment s.
Proof.
  induction s as [|c s IH]; [by left|]. simpl.
  destruct (Ascii.eqb c "/") eqn:Hc; simpl.
  - apply Ascii.eqb_eq in Hc as ->. right.
    destruct IH as [IH | [pre IH]].
    + exists EmptyString.
      change (String "/" s = String "/" (lastSegment s)). by f_equal.
    + exists (String "/" pre).
      change (String "/" s = String "/" (pre +:+ "/" +:+ lastSegment s)).
      by f_equal.
  - destruct (has_slash s) eqn:Hs; [|by left]. right.
    destruct IH as [IH | [pre IH]].
    + rewrite IH, has_slash_lastSegment in Hs. done.
    + exists (String c pre).
      change (String c s = String c (pre +:+ "/" +:+ lastSegment s)).
      by f_equal.
Qed.

Lemma is_last_segment_lastSegment s seg :
  is_last_segment s seg ↔ seg = lastSegment s.
Proof.
  split.
  - intros [Hseg [-> | [pre ->]]].
    + by rewrite lastSegment_no_slash.
    + by rewrite lastSegment_app.
  - intros ->. split; [apply has_slash_lastSegment|].
    apply lastSegment_decompose.
Qed.

Lemma lensAlias_Some arn :
  lensAlias (Some arn)
  = if Js.is_empty (lastSegment arn) then "wellarchitected"
    else lastSegment arn.
Proof. unfold lensAlias. simpl. by rewrite pop_split. Qed.

Lemma urls_differ lensName item :
  frameworkUrl item ≠ docSearchUrl lensName item.
Proof. unfold frameworkUrl, docSearchUrl. simpl. discriminate. Qed.

End LensAlias.

(** C10, as the code has it.  [lensAlias] is the substring of
    [lensAliasArn] after its last ['/'] (the whole string when it has no
    ['/']) when [lensAliasArn] is defined and that segment is not empty,
    and the default 'wellarchitected' otherwise; so it equals
    'wellarchitected' exactly when [lensAliasArn] is undefined or the last
    segment is empty or is itself 'wellarchitected'.  The name link targets
    the framework page built from [item.id] iff
    [lensAlias === 'wellarchitected'], and the documentation search built
    from [lensName] and the item's pillar otherwise. *)
Theorem lensAlias_last_segment :
  Model.lensAlias None = "wellarchitected"
  ∧ (∀ arn, ∃ seg, Spec.is_last_segment arn seg)
  ∧ (∀ arn seg,
       Spec.is_last_segment arn seg →
       Model.lensAlias (Some arn)
       = (if Js.is_empty seg then "wellarchitected" else seg)
       ∧ (Model.lensAlias (Some arn) = "wellarchitected"
          ↔ seg = EmptyString ∨ seg = "wellarchitected"))
  ∧ (∀ p item,
       (Model.nameHref p item
        = "https://docs.aws.amazon.com/wellarchitected/latest/framework/"
          +:+ Model.id item +:+ ".html"
        ↔ Model.lensAlias (Model.lensAliasArn p) = "wellarchitected")
       ∧ (Model.lensAlias (Model.lensAliasArn p) ≠ "wellarchitected" →
          Model.nameHref p item = Model.docSearchUrl (Model.lensName p) item)).
Proof.
  split; [reflexivity|]. split; [|split].
  - intros arn. exists (Spec.lastSegment arn).
    by apply is_last_segment_lastSegment.
  - intros arn seg ->%is_last_segment_lastSegment.
    rewrite lensAlias_Some. split; [done|].
    destruct (Spec.lastSegment arn) as [|c s]; simpl; [by split; auto|].
    split; [by right|]. by intros [?|?].
  - intros p item. unfold Model.nameHref.
    destruct (String.eqb _ "wellarchitected") eqn:Heq.
    + apply String.eqb_eq in Heq. split; [done|]. by intros [].
    + apply String.eqb_neq in Heq. split; [|done]. split; [|done].
      intros Hurl. by apply eq_sym, urls_differ in Hurl.
Qed.

(** C10, as stated, fails: for the ARN of the Well-Architected lens itself
    the alias is 'wellarchitected' although the ARN is defined and its
    last segment is not empty. *)
Lemma lensAlias_default_counterexample :
  ¬ (Model.lensAlias (Some "arn:aws:wellarchitected::aws:lens/wellarchitected")
     = "wellarchitected"
     ↔ Some "arn:aws:wellarchitected::aws:lens/wellarchitected" = None
       ∨ Spec.is_last_segment
           "arn:aws:wellarchitected::aws:lens/wellarchitected" EmptyString).
Proof.
  intros [H _]. destruct (H eq_refl) as [H0 | H0]; [discriminate|].
  apply is_last_segment_lastSegment in H0. discriminate H0.
Qed.

(* ===================================================================== *)
(** * The click loop *)
(* ===================================================================== *)

Ltac counts :=
  unfold Runtime.detailsCalls, Runtime.generateCalls,
    Runtime.calledSelections, Runtime.detailsInFlight,
    Runtime.afterDetails, Runtime.afterCancel, Js.if_truthy,
    Runtime.perform, Runtime.log in *;
  simpl in *;
  rewrite ?filter_app, ?omap_app, ?length_app in *; simpl in *;
  rewrite ?app_nil_r, ?Nat.add_0_r in *.

Section ClickLoop.
Import Model Effects Runtime.

Lemma handleGetMoreDetails_sync p st ui :
  ∃ k, resumes_details k ∧
    run_sync (handleGetMoreDetails p st) ui
    = {| world := log (Called (getMoreDetails (detailsArgs p st)))
                    (perform (setDetailsError None)
                       (perform (setIsLoadingDetails true) (world ui)));
         pending := pending ui ++ [PendingDetails (detailsArgs p st) k] |}.
Proof.
  unfold handleGetMoreDetails. simpl. eexists. split; [|reflexivity].
  intros s ui'. unfold afterDetails.
  destruct s as [[c e]|[m|v]]; simpl; [|by destruct ui'..].
  destruct e as [[|? ?]|], c as [[|? ?]|]; by destruct ui'.
Qed.

Lemma handleCancelGeneration_sync ui :
  ∃ k, resumes_cancel k ∧
    run_sync handleCancelGeneration ui
    = {| world := log (Called cancelIaCGeneration) (world ui);
         pending := pending ui ++ [PendingCancel k] |}.
Proof.
  unfold handleCancelGeneration. simpl. eexists. split; [|reflexivity].
  intros [[]|e] ui'; by destruct ui'.
Qed.

Lemma afterDetails_counts s w q :
  let ui := {| world := w; pending := q |} in
  let ui' := {| world := afterDetails s w; pending := q |} in
  detailsCalls ui' = detailsCalls ui
  ∧ generateCalls ui' = generateCalls ui
  ∧ calledSelections ui' = calledSelections ui
  ∧ isLoadingDetails (props (afterDetails s w)) = false.
Proof.
  destruct s as [[[[|? ?]|] [[|? ?]|]]|[m|v]]; counts;
    repeat split; lia.
Qed.

Lemma afterCancel_counts s w q :
  let ui := {| world := w; pending := q |} in
  let ui' := {| world := afterCancel s w; pending := q |} in
  detailsCalls ui' = detailsCalls ui
  ∧ generateCalls ui' = generateCalls ui
  ∧ calledSelections ui' = calledSelections ui
  ∧ props (afterCancel s w) = props w.
Proof.
  destruct s as [[]|e]; counts; repeat split; lia.
Qed.

Lemma inflight_delete (q : list Pending) i x :
  q !! i = Some x →
  length (filter (λ q, is_pending_details q = true) q)
  = (if is_pending_details x then 1 else 0)
    + length (filter (λ q, is_pending_details q = true) (delete i q)).
Proof.
  intros Hi. rewrite <- (take_drop_middle _ _ _ Hi) at 1.
  rewrite delete_take_drop, !filter_app, !length_app, filter_cons.
  destruct (is_pending_details x); simpl; lia.
Qed.

Lemma Inv_start p : Inv (start p).
Proof. split; simpl; try done; unfold detailsInFlight; simpl; lia. Qed.

Lemma step_click_details ui :
  step ui (Click getMoreDetailsLabel)
  = if detailsDisabled ui then ui
    else run_sync (handleGetMoreDetails (props (world ui)) (state (world ui))) ui.
Proof.
  unfold step, click, detailsDisabled. simpl findButton. cbv beta iota.
  simpl disabled. simpl loading. simpl onClick.
  by destruct (Nat.eqb _ 0), (isLoadingDetails _).
Qed.

Lemma step_click_generate ui :
  step ui (Click generateIacDocumentLabel)
  = if generateDisabled ui then ui
    else {| world := perform onGenerateIacDocument (world ui);
            pending := pending ui |}.
Proof.
  unfold step, click, generateDisabled, findButton, headerActions.
  cbn -[Js.startsWith].
  by destruct (isDownloading (props (world ui))),
    (isImplementing (props (world ui))),
    (Js.startsWith "image/" (uploadedFileType (props (world ui)))).
Qed.

Lemma step_click_cancel ui :
  step ui (Click cancelIacGenerationLabel)
  = if isImplementing (props (world ui))
    then run_sync handleCancelGeneration ui else ui.
Proof.
  unfold step, click, findButton, headerActions.
  by destruct (isImplementing _).
Qed.

Lemma step_click_download ui :
  step ui (Click downloadAnalysisLabel)
  = if isDownloading (props (world ui)) || isImplementing (props (world ui))
    then ui
    else {| world := perform onDownloadRecommendations (world ui);
            pending := pending ui |}.
Proof.
  unfold step, click, findButton, headerActions.
  by destruct (isImplementing (props (world ui))),
    (isDownloading (props (world ui))).
Qed.

Lemma Inv_step ui ev : Inv ui → Inv (step ui ev).
Proof.
  intros HI. pose proof HI as [Hres Hone Hload Hsel].
  destruct ev as [l| row | items | | i s | p'].
  - destruct l.
    + rewrite step_click_details. unfold detailsDisabled.
      destruct (Nat.eqb (length (selectedItems (state (world ui)))) 0) eqn:Hlen;
        [done|].
      destruct (isLoadingDetails (props (world ui))) eqn:Hl; [done|].
      cbn [orb].
      destruct (handleGetMoreDetails_sync (props (world ui)) (state (world ui)) ui)
        as (k & Hk & ->).
      assert (detailsInFlight ui = 0) as H0.
      { destruct (detailsInFlight ui) as [|[|n]]; [done| |lia].
        by specialize (Hload eq_refl). }
      split.
      * apply Forall_app. split; [done|]. by repeat constructor.
      * counts. lia.
      * intros _. reflexivity.
      * counts. apply Forall_app. split; [done|]. repeat constructor.
        destruct (selectedItems (state (world ui))); [discriminate|done].
    + rewrite step_click_generate. destruct (generateDisabled ui); [done|].
      destruct ui as [w q]. split; try done. by counts.
    + rewrite step_click_cancel. destruct (isImplementing _); [|done].
      destruct (handleCancelGeneration_sync ui) as (k & Hk & ->).
      destruct ui as [w q]. split.
      * apply Forall_app. split; [done|]. by repeat constructor.
      * counts. lia.
      * by counts.
      * by counts.
    + rewrite step_click_download. destruct (_ || _); [done|].
      destruct ui as [w q]. split; try done. by counts.
  - destruct ui as [w q]. simpl.
    destruct (_ !! row) as [item|]; [|done].
    destruct (recommendationsCell item) eqn:Hcell; [done|].
    unfold recommendationsCell in Hcell.
    destruct (negb (relevant item)); [discriminate|].
    destruct (Js.truthy _); [|discriminate]. injection Hcell as _ <-.
    split; try done. by counts.
  - destruct ui as [w q]. split; try done. by counts.
  - destruct ui as [w q]. split; try done. by counts.
  - destruct ui as [w q]. unfold step. cbn [world pending].
    destruct (q !! i) as [[args k | k]|] eqn:Hi; [| |done].
    + destruct s as [o|o]; [|done].
      pose proof (Forall_lookup_1 _ _ _ _ Hres Hi) as Hk. simpl in Hk.
      rewrite Hk. cbn [world pending].
      pose proof (inflight_delete _ _ _ Hi) as Hd. simpl in Hd.
      destruct (afterDetails_counts o w (delete i q)) as (Hc1 & Hc2 & Hc3 & Hc4).
      unfold detailsInFlight in *. cbn [world pending] in *.
      split; unfold detailsInFlight; cbn [world pending].
      * by apply Forall_delete.
      * lia.
      * intros; lia.
      * rewrite Hc3. exact Hsel.
    + destruct s as [o|o]; [done|].
      pose proof (Forall_lookup_1 _ _ _ _ Hres Hi) as Hk. simpl in Hk.
      rewrite Hk. cbn [world pending].
      pose proof (inflight_delete _ _ _ Hi) as Hd. simpl in Hd.
      destruct (afterCancel_counts o w (delete i q)) as (Hc1 & Hc2 & Hc3 & Hc4).
      unfold detailsInFlight in *. cbn [world pending] in *.
      split; unfold detailsInFlight; cbn [world pending].
      * by apply Forall_delete.
      * lia.
      * rewrite Hc4. intros; apply Hload; lia.
      * rewrite Hc3. exact Hsel.
  - destruct ui as [w q]. by split.
Qed.

(** A click on the enabled button followed by the settling of its request
    is the handler run to completion. *)
Lemma details_click_then_settle api p st w :
  world (step (run_sync (handleGetMoreDetails p st)
                 {| world := w; pending := [] |})
           (Settle 0 (DetailsSettled
                        (respond api _ (getMoreDetails (detailsArgs p st))))))
  = (exec api (handleGetMoreDetails p st) w).2.
Proof.
  rewrite handleGetMoreDetails_exec.
  destruct (handleGetMoreDetails_sync p st {| world := w; pending := [] |})
    as (k & Hk & ->).
  unfold step. cbn [world pending lookup list_lookup app].
  by rewrite Hk.
Qed.

Lemma Inv_run ui evs : Inv ui → Inv (run ui evs).
Proof.
  revert ui. induction evs as [|ev evs IH]; intros ui HI; [done|].
  simpl. apply IH. by apply Inv_step.
Qed.


Lemma step_calls ui ev :
  Inv ui →
  detailsCalls (step ui ev)
  = detailsCalls ui
    + match ev with
      | Click getMoreDetailsLabel => if detailsDisabled ui then 0 else 1
      | _ => 0
      end
  ∧ generateCalls (step ui ev)
    = generateCalls ui
      + match ev with
        | Click generateIacDocumentLabel => if generateDisabled ui then 0 else 1
        | _ => 0
        end.
Proof.
  intros [Hres _ _ _].
  destruct ev as [l| row | items | | i s | p'].
  - destruct l.
    + rewrite step_click_details. destruct (detailsDisabled ui); [lia|].
      destruct (handleGetMoreDetails_sync (props (world ui)) (state (world ui)) ui)
        as (k & Hk & ->).
      counts. lia.
    + rewrite step_click_generate. destruct (generateDisabled ui); [lia|].
      counts. lia.
    + rewrite step_click_cancel. destruct (isImplementing _); [|lia].
      destruct (handleCancelGeneration_sync ui) as (k & Hk & ->).
      counts. lia.
    + rewrite step_click_download. destruct (_ || _); [lia|]. counts. lia.
  - destruct ui as [w q]. simpl.
    destruct (_ !! row) as [item|]; [|lia].
    destruct (recommendationsCell item) eqn:Hcell; [lia|].
    unfold recommendationsCell in Hcell.
    destruct (negb (relevant item)); [discriminate|].
    destruct (Js.truthy _); [|discriminate]. injection Hcell as _ <-.
    counts. lia.
  - counts. lia.
  - counts. lia.
  - destruct ui as [w q]. unfold step. cbn [world pending] in *.
    destruct (q !! i) as [[args k | k]|] eqn:Hi; [| |lia].
    + destruct s as [o|o]; [|lia].
      pose proof (Forall_lookup_1 _ _ _ _ Hres Hi) as Hk. simpl in Hk.
      rewrite Hk. cbn [world pending].
      destruct (afterDetails_counts o w (delete i q)) as (-> & -> & _).
      unfold detailsCalls, generateCalls. cbn [world]. lia.
    + destruct s as [o|o]; [lia|].
      pose proof (Forall_lookup_1 _ _ _ _ Hres Hi) as Hk. simpl in Hk.
      rewrite Hk. cbn [world pending].
      destruct (afterCancel_counts o w (delete i q)) as (-> & -> & _).
      unfold detailsCalls, generateCalls. cbn [world]. lia.
  - unfold detailsCalls, generateCalls. simpl. lia.
Qed.

End ClickLoop.

(** C4.  In every state the click loop reaches, the get-more-details button
    is disabled exactly when nothing is selected or [isLoadingDetails]
    holds; a click calls [getMoreDetails] only when the button is enabled;
    every call made so far carried a non-empty selection; at most one
    details request is open, and while one is open the button is disabled
    and no event starts another. *)
Theorem getMoreDetails_guard
    (p0 : Model.Props) (evs : list Runtime.UIEvent) (ev : Runtime.UIEvent) :
  let ui := Runtime.run (Runtime.start p0) evs in
  let p := Runtime.props (Runtime.world ui) in
  let st := Runtime.state (Runtime.world ui) in
  let disabled :=
    Nat.eqb (length (Model.selectedItems st)) 0 || Model.isLoadingDetails p in
  (∃ b, Effects.findButton Effects.getMoreDetailsLabel
          (Effects.headerActions p st) = Some b
        ∧ Effects.disabled b = disabled
        ∧ Effects.onClick b = Effects.handleGetMoreDetails p st)
  ∧ (disabled = true
     ↔ Model.selectedItems st = [] ∨ Model.isLoadingDetails p = true)
  ∧ Runtime.detailsCalls (Runtime.step ui ev)
    = Runtime.detailsCalls ui
      + match ev with
        | Runtime.Click Effects.getMoreDetailsLabel =>
            if disabled then 0 else 1
        | _ => 0
        end
  ∧ Forall (λ sel, sel ≠ []) (Runtime.calledSelections ui)
  ∧ Runtime.detailsInFlight ui ≤ 1
  ∧ (Runtime.detailsInFlight ui = 1 →
     disabled = true
     ∧ Runtime.detailsCalls (Runtime.step ui ev) = Runtime.detailsCalls ui).
Proof.
  intros ui p st disabled.
  assert (Runtime.Inv ui) as HI by apply Inv_run, Inv_start.
  destruct (step_calls ui ev HI) as [Hcalls _].
  change disabled with (Runtime.detailsDisabled ui) in *.
  assert (Runtime.detailsDisabled ui = true
          ↔ Model.selectedItems st = [] ∨ Model.isLoadingDetails p = true)
    as Hdis.
  { unfold Runtime.detailsDisabled. fold st p. rewrite orb_true_iff.
    rewrite Nat.eqb_eq. destruct (Model.selectedItems st); simpl; intuition congruence. }
  split; [by eexists|]. split; [done|]. split; [done|].
  destruct HI as [_ Hone Hload Hsel].
  split; [done|]. split; [done|].
  intros Hin%Hload. assert (Runtime.detailsDisabled ui = true) as Hd.
  { apply Hdis. by right. }
  split; [done|]. rewrite Hcalls, Hd. destruct ev as [[]| | | | |]; lia.
Qed.

(** C6.  In every state the click loop reaches, the generate-document
    button is disabled when a download or a generation is in progress or
    [uploadedFileType] does not start with 'image/'; [onGenerateIacDocument]
    is called only by a click on the enabled button, hence never for a
    non-image upload and never while [isDownloading] or [isImplementing]
    holds. *)
Theorem generateIacDocument_guard
    (p0 : Model.Props) (evs : list Runtime.UIEvent) (ev : Runtime.UIEvent) :
  let ui := Runtime.run (Runtime.start p0) evs in
  let p := Runtime.props (Runtime.world ui) in
  let st := Runtime.state (Runtime.world ui) in
  let disabled :=
    Model.isDownloading p || Model.isImplementing p
    || negb (Js.startsWith "image/" (Model.uploadedFileType p)) in
  (∃ b, Effects.findButton Effects.generateIacDocumentLabel
          (Effects.headerActions p st) = Some b
        ∧ Effects.disabled b = disabled
        ∧ Effects.onClick b = Effects.handleGenerateIacClick)
  ∧ Runtime.generateCalls (Runtime.step ui ev)
    = Runtime.generateCalls ui
      + match ev with
        | Runtime.Click Effects.generateIacDocumentLabel =>
            if disabled then 0 else 1
        | _ => 0
        end
  ∧ (Js.startsWith "image/" (Model.uploadedFileType p) = false
     ∨ Model.isDownloading p = true ∨ Model.isImplementing p = true →
     disabled = true
     ∧ Runtime.generateCalls (Runtime.step ui ev) = Runtime.generateCalls ui).
Proof.
  intros ui p st disabled.
  assert (Runtime.Inv ui) as HI by apply Inv_run, Inv_start.
  destruct (step_calls ui ev HI) as [_ Hcalls].
  change disabled with (Runtime.generateDisabled ui) in *.
  split; [by eexists|]. split; [done|].
  intros Hcase. assert (Runtime.generateDisabled ui = true) as Hd.
  { unfold Runtime.generateDisabled. fold p.
    destruct Hcase as [-> | [-> | ->]];
      by destruct (Model.isDownloading p), (Model.isImplementing p). }
  split; [done|]. rewrite Hcalls, Hd. destruct ev as [[]| | | | |]; lia.
Qed.

(* ===================================================================== *)
(** * The render body on the heap *)
(* ===================================================================== *)

Create HintDb frame.

Section Frame.
Import Store.
Lemma frame_ret {A} (a : A) : frame (ret a).
Proof. by intros h. Qed.

Lemma frame_fail {A} : frame (@fail A).
Proof. by intros h. Qed.

Lemma frame_bind {A B} (m : M A) (f : A → M B) :
  frame m → (∀ a, frame (f a)) → frame (bind m f).
Proof.
  intros Hm Hf h. unfold bind. specialize (Hm h).
  destruct (m h) as [[a|] h']; [|done].
  etrans; [exact Hm|]. apply Hf.
Qed.

Lemma alloc_fresh (h : gmap loc obj) : h !! fresh (dom h) = None.
Proof. apply not_elem_of_dom, is_fresh. Qed.

Lemma frame_alloc o : frame (alloc o).
Proof. intros h. apply insert_subseteq, alloc_fresh. Qed.

Lemma frame_getObject v : frame (getObject v).
Proof.
  intros h. unfold getObject. destruct v as [| | | |l]; try done.
  by destruct (h !! l) as [[]|].
Qed.

Lemma frame_getArray v : frame (getArray v).
Proof.
  intros h. unfold getArray. destruct v as [| | | |l]; try done.
  by destruct (h !! l) as [[]|].
Qed.

Lemma frame_getField v k : frame (getField v k).
Proof.
  apply frame_bind; [apply frame_getObject|]. intros; apply frame_ret.
Qed.

Lemma frame_getNum v k : frame (getNum v k).
Proof.
  apply frame_bind; [apply frame_getField|].
  intros []; (apply frame_ret || apply frame_fail).
Qed.

Lemma frame_mapM {A B} (f : A → M B) l :
  (∀ x, frame (f x)) → frame (mapM f l).
Proof.
  intros Hf. induction l as [|x l IH]; [apply frame_ret|].
  apply frame_bind; [apply Hf|]. intros y.
  apply frame_bind; [apply IH|]. intros; apply frame_ret.
Qed.

Lemma frame_foldM {A B} (f : B → A → M B) l :
  (∀ acc x, frame (f acc x)) → ∀ acc, frame (foldM f acc l).
Proof.
  intros Hf. induction l as [|x l IH]; intros acc; [apply frame_ret|].
  apply frame_bind; [apply Hf|]. apply IH.
Qed.

#[local] Hint Resolve frame_ret frame_fail frame_alloc frame_getObject frame_getArray
  frame_getField frame_getNum : frame.

Ltac frame_step :=
  first [ solve [auto with frame]
        | apply frame_mapM; intros ?
        | apply frame_foldM; intros ? ?
        | apply frame_bind; [|intros ?] ].

Lemma frame_render v : frame (render v).
Proof.
  unfold render, flattenedBestPractices, getBestPracticeCounts,
    array_flatMap, array_map, array_reduce, enhance, count_step.
  repeat frame_step.
Qed.
End Frame.

Section Returns.
Import Store.
Implicit Types h : gmap loc obj.

Lemma returns_ret {A} (a : A) h Q : Q a h → returns (ret a) h Q.
Proof. intros HQ. by exists a, h. Qed.

Lemma returns_bind {A B} (m : M A) (f : A → M B) h Q :
  returns m h (λ a h', returns (f a) h' Q) → returns (bind m f) h Q.
Proof.
  intros (a & h1 & Hm & Hsub & b & h2 & Hf & Hsub' & HQ).
  exists b, h2. unfold bind. rewrite Hm, Hf.
  split; [done|]. split; [by etrans|done].
Qed.

Lemma returns_wand {A} (m : M A) h (Q Q' : A → gmap loc obj → Prop) :
  returns m h Q → (∀ a h', h ⊆ h' → Q a h' → Q' a h') → returns m h Q'.
Proof.
  intros (a & h' & Hm & Hsub & HQ) HQQ. exists a, h'. auto.
Qed.

Lemma returns_alloc o h Q :
  Q (VRef (fresh (dom h))) (<[fresh (dom h) := o]> h) →
  returns (alloc o) h Q.
Proof.
  intros HQ. eexists _, _. split; [reflexivity|]. split; [|done].
  apply insert_subseteq, alloc_fresh.
Qed.

Lemma returns_getObject l f h Q :
  h !! l = Some (Object f) → Q f h → returns (getObject (VRef l)) h Q.
Proof. intros Hl HQ. exists f, h. unfold getObject. by rewrite Hl. Qed.

Lemma returns_getArray l vs h Q :
  h !! l = Some (Array vs) → Q vs h → returns (getArray (VRef l)) h Q.
Proof. intros Hl HQ. exists vs, h. unfold getArray. by rewrite Hl. Qed.

Lemma returns_getField l f k v h Q :
  h !! l = Some (Object f) → default VUndefined (f !! k) = v → Q v h →
  returns (getField (VRef l) k) h Q.
Proof.
  intros Hl <- HQ. apply returns_bind, (returns_getObject _ _ _ _ Hl).
  by apply returns_ret.
Qed.

Lemma returns_getNum l f k n h Q :
  h !! l = Some (Object f) → f !! k = Some (VNum n) → Q n h →
  returns (getNum (VRef l) k) h Q.
Proof.
  intros Hl Hk HQ. apply returns_bind.
  apply (returns_getField _ _ _ (VNum n) _ _ Hl); [by rewrite Hk|].
  by apply returns_ret.
Qed.

Lemma is_object_mono P h h' v :
  h ⊆ h' → is_object P h v → is_object P h' v.
Proof.
  intros Hsub (l & f & -> & Hl & HP). exists l, f.
  split; [done|]. split; [by eapply lookup_weaken|done].
Qed.

Lemma is_array_mono {A} (P P' : val → A → Prop) h h' v xs :
  h ⊆ h' → (∀ v x, P v x → P' v x) →
  is_array P h v xs → is_array P' h' v xs.
Proof.
  intros Hsub HP (l & vs & -> & Hl & Hall). exists l, vs.
  split; [done|]. split; [by eapply lookup_weaken|].
  eapply Forall2_impl; eauto.
Qed.

Lemma is_bp_mono h h' v bp : h ⊆ h' → is_bp h v bp → is_bp h' v bp.
Proof. apply is_object_mono. Qed.

Lemma is_row_mono h h' v e : h ⊆ h' → is_row h v e → is_row h' v e.
Proof. apply is_object_mono. Qed.

Lemma is_result_mono h h' v r :
  h ⊆ h' → is_result h v r → is_result h' v r.
Proof.
  intros Hsub (l & f & -> & Hl & Hp & Hq & Hi & a & Ha & Harr).
  exists l, f. split; [done|]. split; [by eapply lookup_weaken|].
  repeat (split; [done|]). exists a. split; [done|].
  eapply is_array_mono; [done| |done]. intros ? ?. by apply is_bp_mono.
Qed.

Lemma is_results_mono h h' v rs :
  h ⊆ h' → is_results h v rs → is_results h' v rs.
Proof.
  intros Hsub. apply is_array_mono; [done|].
  intros ? ?. by apply is_result_mono.
Qed.

Lemma fresh_in_mono h h' v : h ⊆ h' → fresh_in h' v → fresh_in h v.
Proof.
  intros Hsub (l & -> & Hl). exists l. split; [done|].
  by eapply lookup_weaken_None.
Qed.

Lemma returns_mapM {A B X} (f : A → M B)
    (P : gmap loc obj → A → X → Prop) (R : gmap loc obj → B → X → Prop) h0 :
  (∀ h h' a x, h ⊆ h' → P h a x → P h' a x) →
  (∀ h h' b x, h ⊆ h' → R h b x → R h' b x) →
  (∀ h a x, h0 ⊆ h → P h a x → returns (f a) h (λ b h', R h' b x)) →
  ∀ l xs h, h0 ⊆ h → Forall2 (P h) l xs →
    returns (mapM f l) h (λ bs h', Forall2 (R h') bs xs).
Proof.
  intros HP HR Hf l. induction l as [|a l IH]; intros xs h Hsub Hall.
  - apply Forall2_nil_inv_l in Hall as ->. by apply returns_ret.
  - apply Forall2_cons_inv_l in Hall as (x & xs' & Hx & Hxs & ->).
    simpl. apply returns_bind.
    eapply returns_wand; [by apply Hf|].
    intros b h1 Hsub1 Hb. apply returns_bind.
    eapply returns_wand.
    { apply (IH xs'); [by etrans|].
      eapply Forall2_impl; [done|]. intros ? ?. by apply HP. }
    intros bs h2 Hsub2 Hbs. apply returns_ret.
    constructor; [by eapply HR|done].
Qed.
End Returns.

Section Render.
Import Store.
Implicit Types h : gmap loc obj.

Lemma returns_enhance h0 h lr fr r bpv bp :
  h0 ⊆ h →
  h !! lr = Some (Object fr) → result_fields fr r → is_bp h bpv bp →
  returns (enhance (VRef lr) bpv) h
    (λ row h', is_row h' row (Model.enhance r bp) ∧ fresh_in h0 row).
Proof.
  intros Hsub Hlr (Hp & Hq & Hi) (l & f & -> & Hl & Hf).
  unfold enhance, str_field in *.
  apply returns_bind, (returns_getObject _ _ _ _ Hl).
  apply returns_bind.
  eapply returns_getField; [exact Hlr|rewrite Hp; reflexivity|].
  apply returns_bind.
  eapply returns_getField; [exact Hlr|rewrite Hq; reflexivity|].
  apply returns_bind.
  eapply returns_getField; [exact Hlr|rewrite Hi; reflexivity|].
  apply returns_alloc. split.
  - eexists _, _. split; [done|]. split; [apply lookup_insert_eq|].
    destruct Hf as (H1 & H2 & H3 & H4 & H5 & H6 & H7).
    unfold row_fields, bp_fields, str_field, bool_field, opt_field in *.
    rewrite base_enhance. simpl.
    repeat split; by simplify_map_eq.
  - eexists. split; [done|]. eapply lookup_weaken_None; [|done].
    apply alloc_fresh.
Qed.

Lemma rows_of_mono h0 h h' r rows :
  h ⊆ h' → rows_of h0 h r rows → rows_of h0 h' r rows.
Proof.
  intros Hsub Hrows. eapply Forall2_impl; [exact Hrows|].
  intros v e [Hrow Hfr]. split; [by eapply is_row_mono|done].
Qed.

(** The callback of the [flatMap], followed by the read of its result. *)
Lemma returns_result_rows h0 h rv r :
  h0 ⊆ h → is_result h rv r →
  returns
    (y <- (bps <- getField rv "bestPractices" ;;
           array_map (enhance rv) bps) ;;
     getArray y) h
    (λ rows h', rows_of h0 h' r rows).
Proof.
  intros Hsub (lr & fr & -> & Hlr & Hp & Hq & Hi & a & Ha & Harr).
  destruct Harr as (la & vs & -> & Hla & Hvs).
  apply returns_bind, returns_bind.
  eapply returns_getField; [exact Hlr|rewrite Ha; reflexivity|].
  unfold array_map.
  apply returns_bind, (returns_getArray _ _ _ _ Hla).
  apply returns_bind.
  eapply returns_wand.
  { apply (returns_mapM (enhance (VRef lr)) is_bp
             (λ h' v bp, is_row h' v (Model.enhance r bp) ∧ fresh_in h v)
             h); [| | |done|exact Hvs].
    - intros ? ? ? ?. apply is_bp_mono.
    - intros h1 h2 v bp H12 [Hrow Hfr].
      split; [by eapply is_row_mono|done].
    - intros h1 bv bp H01 Hbp.
      apply (returns_enhance h h1 lr fr r bv bp); [done| |done|done].
      by eapply lookup_weaken. }
  intros rows h1 Hsub1 Hrows.
  apply returns_alloc. eapply returns_getArray; [apply lookup_insert_eq|].
  unfold rows_of. apply Forall2_fmap_r.
  eapply Forall2_impl; [exact Hrows|]. intros v bp [Hrow Hfr].
  split; [|by eapply fresh_in_mono]. eapply is_row_mono; [|done].
  apply insert_subseteq, alloc_fresh.
Qed.

Lemma Forall2_concat_map {A B X} (Q : A → B → Prop) (g : X → list B)
    (parts : list (list A)) (xs : list X) :
  Forall2 (λ part x, Forall2 Q part (g x)) parts xs →
  Forall2 Q (concat parts) (concat (map g xs)).
Proof.
  induction 1 as [|part x parts xs Hpart _ IH]; [constructor|].
  simpl. by apply Forall2_app.
Qed.

Lemma returns_flattened h v rs :
  is_results h v rs →
  returns (flattenedBestPractices v) h
    (λ flat h',
       is_array (λ v e, is_row h' v e ∧ fresh_in h v) h' flat
         (Model.flattenedBestPractices rs)
       ∧ fresh_in h flat).
Proof.
  intros (l & vs & -> & Hl & Hvs).
  unfold flattenedBestPractices, array_flatMap.
  apply returns_bind, (returns_getArray _ _ _ _ Hl).
  apply returns_bind.
  eapply returns_wand.
  { apply (returns_mapM _ is_result (λ h' rows r, rows_of h h' r rows) h);
      [| | |done|exact Hvs].
    - intros ? ? ? ?. apply is_result_mono.
    - intros ? ? ? ?. apply rows_of_mono.
    - intros h1 rv r H01 Hr. by apply returns_result_rows. }
  intros parts h1 Hsub1 Hparts. apply returns_alloc. split.
  - eexists _, _. split; [done|]. split; [apply lookup_insert_eq|].
    unfold Model.flattenedBestPractices, Model.flatMap.
    apply Forall2_concat_map.
    eapply Forall2_impl; [exact Hparts|]. intros part r.
    apply rows_of_mono, insert_subseteq, alloc_fresh.
  - eexists. split; [done|]. eapply lookup_weaken_None; [|done].
    apply alloc_fresh.
Qed.

Lemma returns_count_step h acc c pv e :
  is_acc h acc c → is_row h pv e →
  returns (count_step acc pv) h
    (λ acc' h', is_acc h' acc' (Model.count_step c e)).
Proof.
  intros (la & fa & -> & Hla & Ha & Hn & Hr)
         (lp & fp & -> & Hlp & (_ & _ & Hrel & Happ & _) & _).
  unfold count_step, bool_field in *. simpl in Hrel, Happ.
  apply returns_bind. eapply returns_getNum; [exact Hla|exact Ha|].
  apply returns_bind. eapply returns_getNum; [exact Hla|exact Hn|].
  apply returns_bind. eapply returns_getNum; [exact Hla|exact Hr|].
  apply returns_bind.
  eapply returns_getField; [exact Hlp|rewrite Hrel; reflexivity|].
  apply returns_bind.
  eapply returns_getField; [exact Hlp|rewrite Happ; reflexivity|].
  apply returns_alloc.
  eexists _, _. split; [done|]. split; [apply lookup_insert_eq|].
  unfold Model.count_step. simpl.
  destruct (Model.relevant e), (Model.applied e); simpl;
    repeat split; by simplify_map_eq.
Qed.

Lemma is_acc_mono h h' v c : h ⊆ h' → is_acc h v c → is_acc h' v c.
Proof. apply is_object_mono. Qed.

Lemma returns_foldM_count rows : ∀ es h acc c,
  is_acc h acc c → Forall2 (is_row h) rows es →
  returns (foldM count_step acc rows) h
    (λ v h', is_acc h' v (fold_left Model.count_step es c)).
Proof.
  induction rows as [|pv rows IH]; intros es h acc c Hacc Hall.
  - apply Forall2_nil_inv_l in Hall as ->. by apply returns_ret.
  - apply Forall2_cons_inv_l in Hall as (e & es' & He & Hes & ->).
    simpl. apply returns_bind.
    eapply returns_wand; [by apply returns_count_step|].
    intros acc' h1 Hsub1 Hacc'. apply IH; [done|].
    eapply Forall2_impl; [exact Hes|]. intros ? ?. by apply is_row_mono.
Qed.

Lemma returns_counts h flat es :
  is_array (is_row h) h flat es →
  returns (getBestPracticeCounts flat) h
    (λ cv h', is_counts h' cv (Model.getBestPracticeCounts es)).
Proof.
  intros (l & rows & -> & Hl & Hrows).
  unfold getBestPracticeCounts, array_reduce.
  apply returns_bind, returns_alloc.
  set (h1 := <[fresh (dom h) := _]> h).
  assert (h ⊆ h1) as Hsub1 by apply insert_subseteq, alloc_fresh.
  apply returns_bind, returns_bind.
  eapply returns_getArray; [by eapply lookup_weaken|].
  eapply returns_wand.
  { apply (returns_foldM_count rows es h1 _
             {| Model.c_applied := 0; Model.c_notApplied := 0;
                Model.c_notRelevant := 0 |}).
    - eexists _, _. split; [done|]. split; [apply lookup_insert_eq|].
      repeat split; by simplify_map_eq.
    - eapply Forall2_impl; [exact Hrows|]. intros ? ?. by apply is_row_mono. }
  intros cv h2 Hsub2 (lc & fc & -> & Hlc & Ha & Hn & Hr).
  apply returns_bind, (returns_getObject _ _ _ _ Hlc).
  apply returns_bind. eapply returns_getNum; [exact Hlc|exact Ha|].
  apply returns_bind. eapply returns_getNum; [exact Hlc|exact Hn|].
  apply returns_bind. eapply returns_getNum; [exact Hlc|exact Hr|].
  apply returns_alloc.
  eexists _, _. split; [done|]. split; [apply lookup_insert_eq|].
  unfold Model.getBestPracticeCounts. simpl.
  repeat split; by simplify_map_eq.
Qed.

Lemma returns_render h v rs :
  is_results h v rs →
  returns (render v) h
    (λ '(flat, counts) h',
       is_results h' v rs
       ∧ is_array (λ v e, is_row h' v e ∧ fresh_in h v) h' flat
           (Model.flattenedBestPractices rs)
       ∧ fresh_in h flat
       ∧ is_counts h' counts
           (Model.getBestPracticeCounts (Model.flattenedBestPractices rs))).
Proof.
  intros Hres. unfold render. apply returns_bind.
  eapply returns_wand; [by apply returns_flattened|].
  intros flat h1 Hsub1 [Hflat Hfresh]. apply returns_bind.
  eapply returns_wand.
  { apply (returns_counts h1 flat (Model.flattenedBestPractices rs)).
    eapply is_array_mono; [reflexivity| |exact Hflat]. by intros ? ? []. }
  intros counts h2 Hsub2 Hcounts. apply returns_ret.
  split; [eapply is_results_mono; [|done]; by etrans|].
  split; [|done].
  eapply is_array_mono; [done| |exact Hflat].
  intros ? ? [? ?]. split; [by eapply is_row_mono|done].
Qed.
End Render.


(** C9.  Computing the flattened rows and the counts only adds cells to the
    heap: every cell that was there before (the [results] array, each
    result, each [bestPractices] array and each best practice) still holds
    the same object afterwards.  On a heap that holds [results], the
    computation returns, [results] is still represented, and the rows are
    new objects that carry the fields of [flattenedBestPractices]. *)
Theorem render_leaves_results_unchanged
    (h : gmap Store.loc Store.obj) (results : Store.val) :
  h ⊆ (Store.render results h).2
  ∧ ∀ rs,
      Store.is_results h results rs →
      ∃ flat counts h',
        Store.render results h = (Some (flat, counts), h')
        ∧ Store.is_results h' results rs
        ∧ Store.is_array
            (λ v e, Store.is_row h' v e ∧ Store.fresh_in h v) h' flat
            (Model.flattenedBestPractices rs)
        ∧ Store.fresh_in h flat
        ∧ Store.is_counts h' counts
            (Model.getBestPracticeCounts (Model.flattenedBestPractices rs)).
Proof.
  split; [apply frame_render|].
  intros rs Hrs.
  destruct (returns_render h results rs Hrs)
    as ([flat counts] & h' & Hrun & _ & Hres & Hflat & Hfresh & Hcounts).
  by exists flat, counts, h'.
Qed.

(* ===================================================================== *)
(** * The theorems at the sample inputs *)
(* ===================================================================== *)

Example split_trailing_slash :
  Js.split "/" "lens/custom/" = ["lens"; "custom"; EmptyString].
Proof. reflexivity. Qed.

Example lensAlias_trailing_slash :
  Model.lensAlias (Some "lens/custom/") = "wellarchitected".
Proof. reflexivity. Qed.

Example docSearchUrl_sample :
  Model.docSearchUrl "Serverless Lens"
    (Model.enhance Samples.result1 Samples.bp1)
  = "https://docs.aws.amazon.com/search/doc-search.html?searchPath=documentation-guide&searchQuery=%22Serverless%20Lens%22%2B%22Security%22".
Proof. reflexivity. Qed.

Example counts_sample :
  Model.getBestPracticeCounts
    (Model.flattenedBestPractices Samples.sampleResults)
  = {| Model.applied_count := 1; Model.notApplied_count := 1;
       Model.notRelevant_count := 1; Model.totalReviewed := 3 |}.
Proof. reflexivity. Qed.

Example details_trace_sample :
  Runtime.trace
    (Runtime.exec Samples.failing
       (Effects.handleGetMoreDetails (Samples.sampleProps "image/png")
          Model.initialState)
       (Runtime.mount (Samples.sampleProps "image/png"))).2
  = [Runtime.Did (Effects.setIsLoadingDetails true);
     Runtime.Did (Effects.setDetailsError None);
     Runtime.Called
       (Effects.getMoreDetails
          (Effects.detailsArgs (Samples.sampleProps "image/png")
             Model.initialState));
     Runtime.Did (Effects.setError (Some "Network Error"));
     Runtime.Did (Effects.setIsLoadingDetails false)].
Proof. reflexivity. Qed.

Lemma flattenedBestPractices_rows_witness :
  ∃ row,
    Model.flattenedBestPractices Samples.sampleResults !! 2 = Some row
    ∧ Model.base row = Samples.bp3
    ∧ Model.pillar row = "Reliability"
    ∧ Model.question row
      = "How do you design your workload to withstand component failures?"
    ∧ Model.questionId row = "withstand-component-failures".
Proof.
  destruct (flattenedBestPractices_rows Samples.sampleResults)
    as (_ & Hrow & _).
  apply (Hrow 1 0 Samples.result2 Samples.bp3); reflexivity.
Defined.

Lemma handleGetMoreDetails_request_witness :
  let w := Runtime.mount (Samples.sampleProps "image/png") in
  (let w' := (Runtime.exec (Samples.answering (Some "## Details"))
                (Effects.handleGetMoreDetails
                   (Samples.sampleProps "image/png") Model.initialState) w).2 in
   Model.detailsContent (Runtime.state w') = "## Details"
   ∧ Model.detailsModalVisible (Runtime.state w') = true
   ∧ Runtime.Did (Effects.setDetailsContent "## Details")
     ∈ Runtime.emitted w w'
   ∧ Runtime.Did (Effects.setDetailsModalVisible true) ∈ Runtime.emitted w w')
  ∧ (let w' := (Runtime.exec (Samples.answering None)
                  (Effects.handleGetMoreDetails
                     (Samples.sampleProps "image/png") Model.initialState) w).2 in
     Runtime.Did (Effects.setError
                    (Some "No content received from analysis. Please try again."))
     ∈ Runtime.emitted w w'
     ∧ Runtime.shownError w'
       = Some "No content received from analysis. Please try again."
     ∧ (∀ v, Runtime.Did (Effects.setDetailsModalVisible v)
             ∉ Runtime.emitted w w')
     ∧ Model.detailsModalVisible (Runtime.state w')
       = Model.detailsModalVisible (Runtime.state w)).
Proof.
  split.
  - destruct (handleGetMoreDetails_request
                (Samples.answering (Some "## Details"))
                (Samples.sampleProps "image/png") Model.initialState
                (Runtime.mount (Samples.sampleProps "image/png")))
      as (_ & Hcontent & _).
    apply (Hcontent {| Effects.content := Some "## Details";
                       Effects.error := None |});
      [reflexivity | reflexivity | discriminate].
  - destruct (handleGetMoreDetails_request
                (Samples.answering None)
                (Samples.sampleProps "image/png") Model.initialState
                (Runtime.mount (Samples.sampleProps "image/png")))
      as (_ & _ & Hnone).
    apply (Hnone {| Effects.content := None; Effects.error := None |});
      [reflexivity | left; reflexivity].
Defined.

Lemma handleGetMoreDetails_loading_witness :
  let w := Runtime.mount (Samples.sampleProps "image/png") in
  let r := Runtime.exec Samples.failing
             (Effects.handleGetMoreDetails
                (Samples.sampleProps "image/png") Model.initialState) w in
  Runtime.Did (Effects.setError (Some "Network Error")) ∈ Runtime.emitted w r.2
  ∧ Runtime.shownError r.2 = Some "Network Error".
Proof.
  destruct (handleGetMoreDetails_loading Samples.failing
              (Samples.sampleProps "image/png") Model.initialState
              (Runtime.mount (Samples.sampleProps "image/png")))
    as (_ & _ & _ & Hthrown).
  apply (Hthrown (Effects.ErrorObject "Network Error")). reflexivity.
Defined.

Lemma getMoreDetails_guard_witness :
  let ui :=
    Runtime.run (Runtime.start (Samples.sampleProps "image/png"))
      [Runtime.SelectionChange
         [Model.enhance Samples.result1 Samples.bp1];
       Runtime.Click Effects.getMoreDetailsLabel] in
  Runtime.detailsInFlight ui = 1
  ∧ Runtime.detailsCalls ui = 1
  ∧ Runtime.detailsCalls
      (Runtime.step ui (Runtime.Click Effects.getMoreDetailsLabel))
    = Runtime.detailsCalls ui.
Proof.
  split; [reflexivity|]. split; [reflexivity|].
  destruct (getMoreDetails_guard (Samples.sampleProps "image/png")
              [Runtime.SelectionChange
                 [Model.enhance Samples.result1 Samples.bp1];
               Runtime.Click Effects.getMoreDetailsLabel]
              (Runtime.Click Effects.getMoreDetailsLabel))
    as (_ & _ & _ & _ & _ & Hflight).
  apply Hflight. reflexivity.
Defined.

Lemma generateIacDocument_guard_witness :
  let ui := Runtime.run (Runtime.start (Samples.sampleProps "application/json")) [] in
  Runtime.generateCalls
    (Runtime.step ui (Runtime.Click Effects.generateIacDocumentLabel))
  = Runtime.generateCalls ui
  ∧ Runtime.generateCalls
      (Runtime.step (Runtime.start (Samples.sampleProps "image/png"))
         (Runtime.Click Effects.generateIacDocumentLabel)) = 1.
Proof.
  split; [|reflexivity].
  destruct (generateIacDocument_guard (Samples.sampleProps "application/json")
              [] (Runtime.Click Effects.generateIacDocumentLabel))
    as (_ & _ & Hoff).
  apply Hoff. left. reflexivity.
Defined.

Lemma lensAlias_last_segment_witness :
  Model.lensAlias (Some "arn:aws:wellarchitected:us-east-1:123456789012:lens/serverless")
  = "serverless"
  ∧ Model.nameHref (Samples.sampleProps "image/png")
      (Model.enhance Samples.result1 Samples.bp1)
    = "https://docs.aws.amazon.com/wellarchitected/latest/framework/sec_securely_operate_multi_accounts.html".
Proof.
  destruct lensAlias_last_segment as (_ & _ & Hseg & Hhref). split.
  - apply (Hseg "arn:aws:wellarchitected:us-east-1:123456789012:lens/serverless"
             "serverless").
    split; [reflexivity|]. right.
    by exists "arn:aws:wellarchitected:us-east-1:123456789012:lens".
  - apply (Hhref (Samples.sampleProps "image/png")
             (Model.enhance Samples.result1 Samples.bp1)). reflexivity.
Defined.

Lemma render_leaves_results_unchanged_witness :
  ∃ flat counts h',
    Store.render (Store.VRef 1%positive) Samples.sampleHeap
    = (Some (flat, counts), h')
    ∧ Store.is_results h' (Store.VRef 1%positive) [Samples.result2]
    ∧ Store.is_array
        (λ v e, Store.is_row h' v e ∧ Store.fresh_in Samples.sampleHeap v)
        h' flat (Model.flattenedBestPractices [Samples.result2])
    ∧ Store.fresh_in Samples.sampleHeap flat
    ∧ Store.is_counts h' counts
        (Model.getBestPracticeCounts
           (Model.flattenedBestPractices [Samples.result2])).
Proof.
  apply (proj2 (render_leaves_results_unchanged Samples.sampleHeap
                  (Store.VRef 1%positive))).
  exists 1%positive, [Store.VRef 2%positive].
  split; [reflexivity|]. split; [reflexivity|].
  constructor; [|constructor].
  eexists 2%positive, _. split; [reflexivity|]. split; [reflexivity|].
  repeat (split; [reflexivity|]).
  exists (Store.VRef 3%positive). split; [reflexivity|].
  exists 3%positive, [Store.VRef 4%positive].
  split; [reflexivity|]. split; [reflexivity|].
  constructor; [|constructor].
  eexists 4%positive, _. split; [reflexivity|]. split; [reflexivity|].
  repeat split; reflexivity.
Defined.

(* ===================================================================== *)
(** * Further properties of the component *)
(* ===================================================================== *)

Section ViewFacts.
Import Model Effects View.

Lemma flattened_app rs1 rs2 :
  flattenedBestPractices (rs1 ++ rs2)
  = flattenedBestPractices rs1 ++ flattenedBestPractices rs2.
Proof.
  unfold flattenedBestPractices, flatMap. by rewrite map_app, concat_app.
Qed.

Lemma tally_app f l1 l2 : tally f (l1 ++ l2) = tally f l1 + tally f l2.
Proof. unfold tally. by rewrite filter_app, length_app. Qed.

Lemma counts_tally l :
  getBestPracticeCounts l
  = {| applied_count := tally bucket_applied l;
       notApplied_count := tally bucket_notApplied l;
       notRelevant_count := tally bucket_notRelevant l;
       totalReviewed := length l |}.
Proof.
  unfold getBestPracticeCounts. rewrite reduce_counts. simpl.
  by rewrite buckets_partition.
Qed.

Lemma filter_length_ext {A} (P Q : A → Prop)
    `{∀ x, Decision (P x)} `{∀ x, Decision (Q x)} (l : list A) :
  (∀ x, P x ↔ Q x) → length (filter P l) = length (filter Q l).
Proof.
  intros HPQ. induction l as [|x l IH]; [done|].
  rewrite !filter_cons. destruct (decide (P x)), (decide (Q x)); simpl;
    try lia; exfalso; specialize (HPQ x); tauto.
Qed.

Lemma filter_length_le {A} (P Q : A → Prop)
    `{∀ x, Decision (P x)} `{∀ x, Decision (Q x)} (l : list A) :
  (∀ x, P x → Q x) → length (filter P l) ≤ length (filter Q l).
Proof.
  intros HPQ. induction l as [|x l IH]; [done|].
  rewrite !filter_cons. destruct (decide (P x)), (decide (Q x)); simpl;
    try lia; exfalso; specialize (HPQ x); tauto.
Qed.

Lemma withStatus_tally rows :
  length (withStatus typeSuccess rows) = tally bucket_applied rows
  ∧ length (withStatus typeError rows) = tally bucket_notApplied rows
  ∧ length (withStatus typeStopped rows) = tally bucket_notRelevant rows.
Proof.
  unfold withStatus, tally, statusCell, bucket_applied, bucket_notApplied,
    bucket_notRelevant.
  repeat split; apply filter_length_ext; intros x;
    by destruct (relevant x), (applied x).
Qed.
End ViewFacts.

(** X1.  The summary above the table agrees with the status column: with
    [isAnalyzing] off, the four numbers are the number of rows and the
    numbers of rows whose status indicator is 'success', 'error' and
    'stopped'; with [isAnalyzing] on, all four entries are the loading
    indicator and no number is shown. *)
Theorem summary_matches_status_column (p : Model.Props) :
  let rows := Model.flattenedBestPractices (Model.results p) in
  View.summaryItems p
  = if Model.isAnalyzing p
    then [ (View.bestPracticesReviewed, View.loadingIndicator);
           (View.bestPracticesApplied, View.loadingIndicator);
           (View.bestPracticesNotApplied, View.loadingIndicator);
           (View.bestPracticesNotRelevant, View.loadingIndicator) ]
    else [ (View.bestPracticesReviewed,
            {| View.indicatorType := Some View.typeInfo;
               View.children := View.Number (length rows) |});
           (View.bestPracticesApplied,
            {| View.indicatorType := None;
               View.children :=
                 View.Number (length (View.withStatus View.typeSuccess rows)) |});
           (View.bestPracticesNotApplied,
            {| View.indicatorType := Some View.typeError;
               View.children :=
                 View.Number (length (View.withStatus View.typeError rows)) |});
           (View.bestPracticesNotRelevant,
            {| View.indicatorType := Some View.typeStopped;
               View.children :=
                 View.Number (length (View.withStatus View.typeStopped rows)) |}) ].
Proof.
  intros rows. unfold View.summaryItems. fold rows.
  rewrite counts_tally. simpl.
  destruct (withStatus_tally rows) as (-> & -> & ->).
  by destruct (Model.isAnalyzing p).
Qed.

(** X2.  Flattening and counting are additive in the results: the rows of
    [rs1 ++ rs2] are the rows of [rs1] followed by those of [rs2], each
    counter is the sum of the counters of the two parts, and
    [totalReviewed] is the total number of best practices. *)
Theorem counts_of_appended_results (rs1 rs2 : list Model.AnalysisResult) :
  let c rs := Model.getBestPracticeCounts (Model.flattenedBestPractices rs) in
  Model.flattenedBestPractices (rs1 ++ rs2)
  = Model.flattenedBestPractices rs1 ++ Model.flattenedBestPractices rs2
  ∧ Model.applied_count (c (rs1 ++ rs2))
    = Model.applied_count (c rs1) + Model.applied_count (c rs2)
  ∧ Model.notApplied_count (c (rs1 ++ rs2))
    = Model.notApplied_count (c rs1) + Model.notApplied_count (c rs2)
  ∧ Model.notRelevant_count (c (rs1 ++ rs2))
    = Model.notRelevant_count (c rs1) + Model.notRelevant_count (c rs2)
  ∧ Model.totalReviewed (c (rs1 ++ rs2))
    = sum_list_with (λ r, length (Model.ar_bestPractices r)) rs1
      + sum_list_with (λ r, length (Model.ar_bestPractices r)) rs2.
Proof.
  intros c. subst c. cbv beta.
  rewrite flattened_app, !counts_tally, !tally_app, length_app,
    !flattened_length.
  by simpl.
Qed.

(** X3.  The cells of a row agree: a chat icon only comes with status
    'error'; a row with status 'success' shows [reasonApplied] and 'N/A' as
    recommendations, whatever its [recommendations] hold; a row with
    status 'stopped' shows 'N/A' in both; a row with status 'error' shows
    [reasonNotApplied], and 'N/A' as recommendations when it has no icon. *)
Theorem cells_agree_with_status (item : Model.EnhancedBestPractice) :
  (View.hasChatButton item = true →
   View.indicatorType (View.statusCell item) = Some View.typeError)
  ∧ (View.indicatorType (View.statusCell item) = Some View.typeSuccess →
     Effects.recommendationsCell item = Effects.Text (Js.Str "N/A")
     ∧ View.reasonCell item = Js.of_opt (Model.reasonApplied item))
  ∧ (View.indicatorType (View.statusCell item) = Some View.typeStopped →
     Effects.recommendationsCell item = Effects.Text (Js.Str "N/A")
     ∧ View.reasonCell item = Js.Str "N/A")
  ∧ (View.indicatorType (View.statusCell item) = Some View.typeError →
     View.reasonCell item = Js.of_opt (Model.reasonNotApplied item)
     ∧ (View.hasChatButton item = false →
        Effects.recommendationsCell item = Effects.Text (Js.Str "N/A"))).
Proof.
  unfold View.hasChatButton, View.statusCell, View.reasonCell,
    Effects.recommendationsCell.
  destruct (Model.relevant item), (Model.applied item),
    (Model.recommendations item) as [[|? ?]|]; simpl;
    repeat split; intros; try discriminate; done.
Qed.

Section ChatCount.
Import Model Effects View.

Lemma hasChatButton_bucket item :
  hasChatButton item = true → bucket_notApplied item = true.
Proof.
  unfold hasChatButton, recommendationsCell, bucket_notApplied.
  by destruct (relevant item), (applied item).
Qed.

Lemma hasChatButton_iff item :
  hasChatButton item = true
  ↔ bucket_notApplied item = true
    ∧ Js.truthy (Js.of_opt (recommendations item)) = true.
Proof.
  unfold hasChatButton, recommendationsCell, bucket_notApplied.
  destruct (relevant item), (applied item),
    (recommendations item) as [[|? ?]|]; simpl; intuition congruence.
Qed.
End ChatCount.

(** X4.  The table has at most as many chat icons as the summary counts
    best practices not applied, and exactly as many when every such row
    has non-empty recommendations. *)
Theorem chat_buttons_bounded_by_notApplied
    (rows : list Model.EnhancedBestPractice) :
  length (filter (λ item, View.hasChatButton item = true) rows)
  ≤ Model.notApplied_count (Model.getBestPracticeCounts rows)
  ∧ (Forall (λ item, Model.bucket_notApplied item = true →
                     Js.truthy (Js.of_opt (Model.recommendations item)) = true)
       rows →
     length (filter (λ item, View.hasChatButton item = true) rows)
     = Model.notApplied_count (Model.getBestPracticeCounts rows)).
Proof.
  rewrite counts_tally. simpl. unfold Model.tally. split.
  - apply filter_length_le. apply hasChatButton_bucket.
  - intros Hall. induction Hall as [|item rows Hitem _ IH]; [done|].
    rewrite !filter_cons.
    destruct (decide (View.hasChatButton item = true)) as [Hc|Hc],
      (decide (Model.bucket_notApplied item = true)) as [Hb|Hb]; simpl.
    + by rewrite IH.
    + by apply hasChatButton_bucket in Hc.
    + exfalso. apply Hc, hasChatButton_iff. auto.
    + done.
Qed.

Section AliasFacts.
Import Model Spec.

Lemma lensAlias_cases o :
  lensAlias o = "wellarchitected"
  ∨ ∃ arn, o = Some arn ∧ lensAlias o = lastSegment arn
           ∧ lastSegment arn ≠ EmptyString.
Proof.
  destruct o as [arn|]; [|by left].
  rewrite lensAlias_Some.
  destruct (lastSegment arn) as [|c s] eqn:Hseg; [by left|].
  right. exists arn. by rewrite Hseg.
Qed.
End AliasFacts.

(** X13.  [lensAlias] is never empty, never contains a ['/'], and taking
    the alias of an alias changes nothing. *)
Theorem lensAlias_is_a_segment (lensAliasArn : option string) :
  Model.lensAlias lensAliasArn ≠ EmptyString
  ∧ Spec.has_slash (Model.lensAlias lensAliasArn) = false
  ∧ Model.lensAlias (Some (Model.lensAlias lensAliasArn))
    = Model.lensAlias lensAliasArn.
Proof.
  assert (Spec.has_slash (Model.lensAlias lensAliasArn) = false) as Hns.
  { destruct (lensAlias_cases lensAliasArn) as [-> | (arn & _ & -> & _)];
      [reflexivity|apply has_slash_lastSegment]. }
  assert (Model.lensAlias lensAliasArn ≠ EmptyString) as Hne.
  { destruct (lensAlias_cases lensAliasArn) as [-> | (arn & _ & -> & ?)];
      [discriminate|done]. }
  split; [done|]. split; [done|].
  rewrite lensAlias_Some, (lastSegment_no_slash _ Hns).
  by destruct (Model.lensAlias lensAliasArn).
Qed.

Section UrlFacts.
Import Model View.




Lemma all_chars_app f s1 s2 :
  all_chars f (s1 +:+ s2) = all_chars f s1 && all_chars f s2.
Proof.
  induction s1 as [|c s1 IH]; [done|].
  change (String c s1 +:+ s2) with (String c (s1 +:+ s2)).
  cbn [all_chars]. rewrite IH. by destruct (f c).
Qed.



End UrlFacts.



Section SplitFacts.
Import View.

Lemma split_not_nil sep s : Js.split sep s ≠ [].
Proof.
  destruct s as [|c s]; [done|]. simpl.
  destruct (Ascii.eqb c sep); [done|]. by destruct (Js.split sep s).
Qed.

Lemma join_split sep s : join sep (Js.split sep s) = s.
Proof.
  induction s as [|c s IH]; [done|]. simpl.
  pose proof (split_not_nil sep s) as Hne.
  destruct (Ascii.eqb c sep) eqn:Hc.
  - apply Ascii.eqb_eq in Hc as ->.
    destruct (Js.split sep s) as [|piece rest]; [done|].
    change (join sep (EmptyString :: piece :: rest))
      with (String sep (join sep (piece :: rest))).
    by rewrite IH.
  - destruct (Js.split sep s) as [|piece [|piece' rest]]; [done| |].
    + simpl in *. by rewrite IH.
    + change (join sep (String c piece :: piece' :: rest))
        with (String c (join sep (piece :: piece' :: rest))).
      by rewrite IH.
Qed.

Lemma split_pieces sep s :
  Forall (λ piece, all_chars (λ c, negb (Ascii.eqb c sep)) piece = true)
    (Js.split sep s).
Proof.
  induction s as [|c s IH]; [by repeat constructor|]. simpl.
  destruct (Ascii.eqb c sep) eqn:Hc; [by constructor|].
  destruct (Js.split sep s) as [|piece rest]; [by repeat constructor; simpl; rewrite Hc|].
  apply Forall_cons in IH as [Hp Hr]. constructor; [|done].
  simpl. by rewrite Hc, Hp.
Qed.
Lemma pop_not_nil l : l ≠ [] → ∃ piece, Js.pop l = Some piece.
Proof.
  induction l as [|x l IH]; [done|]. intros _.
  destruct l as [|y l]; [by eexists|]. by apply IH.
Qed.
End SplitFacts.

(** X16.  [split] loses nothing: joining the pieces with the separator
    gives the string back, no piece contains the separator, and there is
    always a last piece for [pop]. *)
Theorem split_join_round_trip (sep : ascii) (s : string) :
  View.join sep (Js.split sep s) = s
  ∧ Forall (λ piece,
              View.all_chars (λ c, negb (Ascii.eqb c sep)) piece = true)
      (Js.split sep s)
  ∧ Js.split sep s ≠ []
  ∧ ∃ piece, Js.pop (Js.split sep s) = Some piece.
Proof.
  split; [apply join_split|]. split; [apply split_pieces|].
  split; [apply split_not_nil|].
  apply pop_not_nil, split_not_nil.
Qed.

(** X17.  After any sequence of preference confirmations the page size is
    not zero: a missing or zero [pageSize] becomes 10 and any other value
    is kept.  The displayed columns are the confirmed [visibleContent]
    (none when it is missing), each marked visible. *)
Theorem confirmed_page_size_is_positive
    (details : list View.ConfirmDetail) (detail : View.ConfirmDetail) :
  View.pageSize (View.confirmAll details) ≠ 0
  ∧ View.pageSize (View.onConfirm detail)
    = (match View.detail_pageSize detail with
       | Some (S n) => S n
       | _ => 10
       end)
  ∧ map fst (View.columnDisplay (View.onConfirm detail))
    = default [] (View.detail_visibleContent detail)
  ∧ Forall (λ col, col.2 = true) (View.columnDisplay (View.confirmAll details)).
Proof.
  split; [|split; [|split]].
  - unfold View.confirmAll.
    induction details as [|d ds IH] using rev_ind; [done|].
    rewrite fold_left_app. simpl.
    by destruct (View.detail_pageSize d) as [[|n]|].
  - unfold View.onConfirm. simpl.
    by destruct (View.detail_pageSize detail) as [[|n]|].
  - unfold View.columnDisplay. simpl. rewrite map_map. simpl. apply map_id.
  - unfold View.columnDisplay. apply Forall_forall. intros col Hcol.
    apply list_elem_of_In, in_map_iff in Hcol as (? & <- & _). done.
Qed.

Section LabelFacts.
Import Model View.

Lemma isItemSelected_iff selected item :
  isItemSelected selected item = true
  ↔ ∃ i, i ∈ selected ∧ id i = id item.
Proof.
  unfold isItemSelected. rewrite Nat.ltb_lt. split.
  - intros Hlen.
    destruct (filter _ selected) as [|i l] eqn:Hf; [simpl in Hlen; lia|].
    assert (i ∈ filter (λ i, String.eqb (id i) (id item) = true) selected)
      as Hi by (rewrite Hf; left).
    apply list_elem_of_filter in Hi as [Heq Hi].
    exists i. split; [done|]. by apply String.eqb_eq.
  - intros (i & Hi & Heq).
    assert (i ∈ filter (λ i, String.eqb (id i) (id item) = true) selected)
      as Hin.
    { apply list_elem_of_filter. split; [by apply String.eqb_eq|done]. }
    destruct (filter _ selected); [by apply elem_of_nil in Hin|simpl; lia].
Qed.
End LabelFacts.

(** X18.  The selection label of a row compares [id]s: the row counts as
    selected exactly when some selected item has its [id].  For a row in
    the selection the label ends after 'is '; for a row whose [id] no
    selected item has, it ends with the not-selected text. *)
Theorem itemSelectionLabel_by_id
    (notSelected : string) (selected : list Model.EnhancedBestPractice)
    (item : Model.EnhancedBestPractice) :
  (View.isItemSelected selected item = true
   ↔ ∃ i, i ∈ selected ∧ Model.id i = Model.id item)
  ∧ (item ∈ selected →
     View.itemSelectionLabel notSelected selected item
     = Model.dquote +:+ Model.name item +:+ Model.dquote +:+ " is ")
  ∧ ((∀ i, i ∈ selected → Model.id i ≠ Model.id item) →
     View.itemSelectionLabel notSelected selected item
     = Model.dquote +:+ Model.name item +:+ Model.dquote +:+ " is "
       +:+ notSelected).
Proof.
  split; [apply isItemSelected_iff|]. unfold View.itemSelectionLabel. split.
  - intros Hin.
    assert (View.isItemSelected selected item = true) as ->.
    { apply isItemSelected_iff. by exists item. }
    done.
  - intros Hno.
    destruct (View.isItemSelected selected item) eqn:Hsel; [|done].
    apply isItemSelected_iff in Hsel as (i & Hi & Heq). by apply Hno in Hi.
Qed.

Ltac observe :=
  unfold Loop.downloadCalls, Loop.cancelCalls, Loop.chatPrompts,
    Loop.errorsSet, Loop.ModalInv,
    Runtime.afterDetails, Runtime.afterCancel, Js.if_truthy,
    Runtime.perform, Runtime.log in *;
  simpl in *;
  rewrite ?filter_app, ?omap_app, ?length_app in *; simpl in *;
  rewrite ?app_nil_r, ?Nat.add_0_r in *.

Ltac splits := repeat match goal with |- _ ∧ _ => split end.

Ltac idle :=
  unfold Loop.chatClick; cbv beta iota; rewrite ?Nat.add_0_r, ?app_nil_r;
  splits; (lia || done).

Ltac finish :=
  splits; try lia; try done; try tauto;
  try (intros; intuition (try discriminate; try congruence)).

Section LoopFacts.
Import Model Effects Runtime View Loop.

Lemma afterDetails_observed s w q :
  let ui := {| world := w; pending := q |} in
  let ui' := {| world := afterDetails s w; pending := q |} in
  downloadCalls ui' = downloadCalls ui
  ∧ cancelCalls ui' = cancelCalls ui
  ∧ chatPrompts ui' = chatPrompts ui
  ∧ selectedItems (state (afterDetails s w)) = selectedItems (state w)
  ∧ (ModalInv (state w) → ModalInv (state (afterDetails s w))).
Proof.
  destruct s as [[[[|? ?]|] [[|? ?]|]]|[m|v]]; observe; finish.
Qed.

Lemma afterCancel_observed s w q :
  let ui := {| world := w; pending := q |} in
  let ui' := {| world := afterCancel s w; pending := q |} in
  downloadCalls ui' = downloadCalls ui
  ∧ cancelCalls ui' = cancelCalls ui
  ∧ chatPrompts ui' = chatPrompts ui
  ∧ state (afterCancel s w) = state w.
Proof. destruct s as [[]|e]; observe; finish. Qed.

Lemma step_observed ui ev :
  Inv ui →
  downloadCalls (step ui ev)
  = downloadCalls ui
    + match ev with
      | Click downloadAnalysisLabel => if downloadDisabled ui then 0 else 1
      | _ => 0
      end
  ∧ cancelCalls (step ui ev)
    = cancelCalls ui
      + match ev with
        | Click cancelIacGenerationLabel =>
            if isImplementing (props (world ui)) then 1 else 0
        | _ => 0
        end
  ∧ chatPrompts (step ui ev) = chatPrompts ui ++ chatClick ui ev
  ∧ selectedItems (state (world (step ui ev)))
    = match ev with
      | SelectionChange items => items
      | _ => selectedItems (state (world ui))
      end
  ∧ (ModalInv (state (world ui)) → ModalInv (state (world (step ui ev)))).
Proof.
  intros [Hres _ _ _].
  destruct ev as [l| row | items | | i s | p'].
  - destruct l.
    + rewrite step_click_details. destruct (detailsDisabled ui); [idle|].
      destruct (handleGetMoreDetails_sync (props (world ui)) (state (world ui)) ui)
        as (k & Hk & ->).
      observe. finish.
    + rewrite step_click_generate. destruct (generateDisabled ui);
        [idle|].
      observe. finish.
    + rewrite step_click_cancel. destruct (isImplementing _);
        [|idle].
      destruct (handleCancelGeneration_sync ui) as (k & Hk & ->).
      observe. finish.
    + rewrite step_click_download. unfold downloadDisabled.
      destruct (_ || _);
        [idle|].
      observe. finish.
  - destruct ui as [w q]. unfold chatClick, hasChatButton. simpl.
    destruct (_ !! row) as [item|];
      [|idle].
    destruct (recommendationsCell item) eqn:Hcell;
      [idle|].
    unfold recommendationsCell in Hcell.
    destruct (negb (relevant item)); [discriminate|].
    destruct (Js.truthy _); [|discriminate]. injection Hcell as _ <-.
    observe. finish.
  - unfold chatClick. observe. finish.
  - unfold chatClick. observe. finish.
  - destruct ui as [w q]. unfold step, chatClick. cbn [world pending] in *.
    destruct (q !! i) as [[args k | k]|] eqn:Hi;
      [| |idle].
    + destruct s as [o|o];
        [|idle].
      pose proof (Forall_lookup_1 _ _ _ _ Hres Hi) as Hk. simpl in Hk.
      rewrite Hk. cbn [world pending].
      destruct (afterDetails_observed o w (delete i q))
        as (-> & -> & -> & -> & HM).
      unfold downloadCalls, cancelCalls, chatPrompts. cbn [world].
      rewrite app_nil_r. finish.
    + destruct s as [o|o];
        [idle|].
      pose proof (Forall_lookup_1 _ _ _ _ Hres Hi) as Hk. simpl in Hk.
      rewrite Hk. cbn [world pending].
      destruct (afterCancel_observed o w (delete i q))
        as (-> & -> & -> & ->).
      unfold downloadCalls, cancelCalls, chatPrompts. cbn [world].
      rewrite app_nil_r. finish.
  - unfold chatClick, downloadCalls, cancelCalls, chatPrompts. simpl.
    rewrite app_nil_r. finish.
Qed.
End LoopFacts.

Section LoopRuns.
Import Model Effects Runtime View Loop.

Lemma ModalInv_run p0 evs :
  Inv (run (start p0) evs) ∧ ModalInv (state (world (run (start p0) evs))).
Proof.
  unfold run. induction evs as [|ev evs IH] using rev_ind.
  - split; [apply Inv_start|]. by split.
  - rewrite fold_left_app. simpl. destruct IH as [HI HM].
    split; [by apply Inv_step|].
    by apply (step_observed _ ev HI).
Qed.

Lemma step_click_cancel_world ui :
  Inv ui →
  let ui' := step ui (Click cancelIacGenerationLabel) in
  props (world ui') = props (world ui)
  ∧ state (world ui') = state (world ui)
  ∧ shownError (world ui') = shownError (world ui).
Proof.
  intros _ ui'. subst ui'. rewrite step_click_cancel.
  destruct (isImplementing _); [|done].
  by destruct (handleCancelGeneration_sync ui) as (k & Hk & ->).
Qed.
End LoopRuns.

(** X6.  The download button is disabled while [isDownloading] or
    [isImplementing] holds and shows the spinner while [isDownloading];
    in the click loop [onDownloadRecommendations] is called only by a
    click on the enabled button. *)
Theorem downloadRecommendations_guard
    (p0 : Model.Props) (evs : list Runtime.UIEvent) (ev : Runtime.UIEvent) :
  let ui := Runtime.run (Runtime.start p0) evs in
  let p := Runtime.props (Runtime.world ui) in
  let st := Runtime.state (Runtime.world ui) in
  let disabled := Model.isDownloading p || Model.isImplementing p in
  (∃ b, Effects.findButton Effects.downloadAnalysisLabel
          (Effects.headerActions p st) = Some b
        ∧ Effects.disabled b = disabled
        ∧ Effects.loading b = Model.isDownloading p
        ∧ Effects.onClick b = Effects.call Effects.onDownloadRecommendations)
  ∧ Loop.downloadCalls (Runtime.step ui ev)
    = Loop.downloadCalls ui
      + match ev with
        | Runtime.Click Effects.downloadAnalysisLabel =>
            if disabled then 0 else 1
        | _ => 0
        end.
Proof.
  intros ui p st disabled.
  destruct (ModalInv_run p0 evs) as [HI _]. fold ui in HI.
  destruct (step_observed ui ev HI) as (Hd & _).
  split; [|exact Hd].
  unfold Effects.findButton, Effects.headerActions.
  destruct (Model.isImplementing p); by eexists.
Qed.

(** X7.  [cancelIaCGeneration] is called only by a click on the cancel
    button while [isImplementing] holds, and every such click calls it:
    [n] clicks in a row make [n] calls, also while earlier calls are
    still open. *)
Theorem cancel_clicks_are_not_debounced
    (p0 : Model.Props) (evs : list Runtime.UIEvent) (ev : Runtime.UIEvent)
    (n : nat) :
  let ui := Runtime.run (Runtime.start p0) evs in
  let p := Runtime.props (Runtime.world ui) in
  Loop.cancelCalls (Runtime.step ui ev)
  = Loop.cancelCalls ui
    + match ev with
      | Runtime.Click Effects.cancelIacGenerationLabel =>
          if Model.isImplementing p then 1 else 0
      | _ => 0
      end
  ∧ Loop.cancelCalls
      (Runtime.run ui
         (replicate n (Runtime.Click Effects.cancelIacGenerationLabel)))
    = Loop.cancelCalls ui + (if Model.isImplementing p then n else 0).
Proof.
  intros ui p.
  destruct (ModalInv_run p0 evs) as [HI _]. fold ui in HI.
  split; [apply (step_observed ui ev HI)|].
  subst p. clearbody ui. revert ui HI.
  induction n as [|n IH]; intros ui HI.
  - simpl. destruct (Model.isImplementing _); lia.
  - change (replicate (S n) ?x) with (x :: replicate n x).
    change (Runtime.run ui (?x :: ?l)) with (Runtime.run (Runtime.step ui x) l).
    rewrite IH by (by apply Inv_step).
    destruct (step_click_cancel_world ui HI) as (-> & _).
    destruct (step_observed ui
                (Runtime.Click Effects.cancelIacGenerationLabel) HI)
      as (_ & -> & _).
    destruct (Model.isImplementing _); lia.
Qed.

(** X8.  In the click loop the chat is opened only by a click on the icon
    of a row that is relevant, not applied and has non-empty
    recommendations, with the prompt of that row; a click on a row
    without the icon, or past the last row, opens nothing. *)
Theorem chat_prompt_only_from_row_icon
    (p0 : Model.Props) (evs : list Runtime.UIEvent) (ev : Runtime.UIEvent) :
  let ui := Runtime.run (Runtime.start p0) evs in
  let rows :=
    Model.flattenedBestPractices
      (Model.results (Runtime.props (Runtime.world ui))) in
  Loop.chatPrompts (Runtime.step ui ev)
  = Loop.chatPrompts ui
    ++ match ev with
       | Runtime.ClickChat row =>
           match rows !! row with
           | Some item =>
               if Model.relevant item && negb (Model.applied item)
                  && Js.truthy (Js.of_opt (Model.recommendations item))
               then ["Can you provide more detailed recommendations and instructions for the best practice '"
                     +:+ Model.name item +:+ "' of the '"
                     +:+ Model.pillar item +:+ "' pillar?"]
               else []
           | None => []
           end
       | _ => []
       end.
Proof.
  intros ui rows.
  destruct (ModalInv_run p0 evs) as [HI _]. fold ui in HI.
  destruct (step_observed ui ev HI) as (_ & _ & -> & _).
  f_equal. unfold Loop.chatClick. fold rows.
  destruct ev as [| row | | | |]; try done.
  destruct (rows !! row) as [item|]; [|done].
  unfold View.hasChatButton, Effects.recommendationsCell.
  by destruct (Model.relevant item), (Model.applied item),
    (Model.recommendations item) as [[|? ?]|].
Qed.


(** X11.  Only the table's selection change alters [selectedItems]: no
    click, no settled request and no new props from the parent (new
    [results] included) clears or changes the selection. *)
Theorem selection_changes_only_by_the_table
    (p0 : Model.Props) (evs : list Runtime.UIEvent) (ev : Runtime.UIEvent) :
  let ui := Runtime.run (Runtime.start p0) evs in
  Model.selectedItems (Runtime.state (Runtime.world (Runtime.step ui ev)))
  = match ev with
    | Runtime.SelectionChange items => items
    | _ => Model.selectedItems (Runtime.state (Runtime.world ui))
    end.
Proof.
  intros ui.
  destruct (ModalInv_run p0 evs) as [HI _]. fold ui in HI.
  apply (step_observed ui ev HI).
Qed.

(** X12.  When an open details request settles, however it settles,
    [isLoadingDetails] is false again, no details request is open, no new
    call was made, and the button is disabled only if nothing is
    selected. *)
Theorem settled_details_request_releases_the_button
    (p0 : Model.Props) (evs : list Runtime.UIEvent) (i : nat)
    (args : Effects.DetailsArgs)
    (k : Effects.Settled Effects.DetailsResult → Effects.Prog unit)
    (o : Effects.Settled Effects.DetailsResult) :
  let ui := Runtime.run (Runtime.start p0) evs in
  Runtime.pending ui !! i = Some (Runtime.PendingDetails args k) →
  let ui' := Runtime.step ui (Runtime.Settle i (Runtime.DetailsSettled o)) in
  Model.isLoadingDetails (Runtime.props (Runtime.world ui')) = false
  ∧ Runtime.detailsInFlight ui' = 0
  ∧ Runtime.detailsDisabled ui'
    = Nat.eqb (length (Model.selectedItems
                         (Runtime.state (Runtime.world ui)))) 0
  ∧ Runtime.detailsCalls ui' = Runtime.detailsCalls ui.
Proof.
  intros ui Hi ui'.
  destruct (ModalInv_run p0 evs) as [HI _]. fold ui in HI.
  pose proof (step_observed ui (Runtime.Settle i (Runtime.DetailsSettled o)) HI)
    as (_ & _ & _ & Hsel & _). fold ui' in Hsel.
  pose proof (step_calls ui (Runtime.Settle i (Runtime.DetailsSettled o)) HI)
    as [Hcalls _]. fold ui' in Hcalls.
  destruct HI as [Hres Hone _ _].
  pose proof (Forall_lookup_1 _ _ _ _ Hres Hi) as Hk. simpl in Hk.
  pose proof (inflight_delete _ _ _ Hi) as Hd. simpl in Hd.
  assert (ui' = {| Runtime.world := Runtime.afterDetails o (Runtime.world ui);
                   Runtime.pending := delete i (Runtime.pending ui) |}) as Hui'.
  { unfold ui', Runtime.step. rewrite Hi. by rewrite Hk. }
  assert (Model.isLoadingDetails (Runtime.props (Runtime.world ui')) = false)
    as Hload.
  { rewrite Hui'. apply (afterDetails_counts o (Runtime.world ui) []). }
  split; [done|]. split; [|split; [|lia]].
  - rewrite Hui'. unfold Runtime.detailsInFlight in *. simpl. lia.
  - unfold Runtime.detailsDisabled. by rewrite Hload, Hsel, orb_false_r.
Qed.

(** X9.  The state after [handleGetMoreDetails]: the modal's
    [detailsError] is the [error] of this result if it has a non-empty
    one and is cleared otherwise, so an earlier one never survives; the
    error banner keeps its earlier value when content was received and is
    overwritten otherwise; the modal is opened or left as it was, never
    closed; the selection is kept; [isLoadingDetails] ends false. *)
Theorem handleGetMoreDetails_state_after
    (api : Runtime.Api) (p : Model.Props) (st : Model.CompState)
    (w : Runtime.World) :
  let outcome :=
    Runtime.respond api _ (Effects.getMoreDetails (Effects.detailsArgs p st)) in
  let w' := (Runtime.exec api (Effects.handleGetMoreDetails p st) w).2 in
  Model.detailsError (Runtime.state w')
  = match outcome with
    | Effects.Fulfilled result => Js.if_truthy (Effects.error result) Some None
    | Effects.Rejected _ => None
    end
  ∧ Runtime.shownError w'
    = match outcome with
      | Effects.Fulfilled result =>
          Js.if_truthy (Effects.content result)
            (λ _, Runtime.shownError w)
            (Some "No content received from analysis. Please try again.")
      | Effects.Rejected (Effects.ErrorObject message) => Some message
      | Effects.Rejected (Effects.OtherThrown _) =>
          Some "Failed to get detailed analysis"
      end
  ∧ Model.detailsModalVisible (Runtime.state w')
    = match outcome with
      | Effects.Fulfilled result =>
          Js.if_truthy (Effects.content result)
            (λ _, true) (Model.detailsModalVisible (Runtime.state w))
      | Effects.Rejected _ => Model.detailsModalVisible (Runtime.state w)
      end
  ∧ Model.detailsContent (Runtime.state w')
    = match outcome with
      | Effects.Fulfilled result =>
          Js.if_truthy (Effects.content result)
            (λ c, c) (Model.detailsContent (Runtime.state w))
      | Effects.Rejected _ => Model.detailsContent (Runtime.state w)
      end
  ∧ Model.selectedItems (Runtime.state w')
    = Model.selectedItems (Runtime.state w)
  ∧ Runtime.props w' = Runtime.with_isLoadingDetails false (Runtime.props w).
Proof.
  intros outcome w'. subst w'. rewrite handleGetMoreDetails_exec.
  fold outcome. simpl snd.
  destruct outcome as [[[[|? ?]|] [[|? ?]|]]|[m|v]]; simpl; done.
Qed.

(** X5.  The header shows the details, generate and download buttons in
    this order, with the cancel button between the last two exactly while
    [isImplementing] holds.  A button that shows the spinner is disabled;
    the generate button is disabled whenever the download button is, and
    both are disabled while [isImplementing] or [isDownloading] holds. *)
Theorem header_buttons_shape (p : Model.Props) (st : Model.CompState) :
  let bs := Effects.headerActions p st in
  map Effects.label bs
  = [Effects.getMoreDetailsLabel; Effects.generateIacDocumentLabel]
    ++ (if Model.isImplementing p then [Effects.cancelIacGenerationLabel]
        else [])
    ++ [Effects.downloadAnalysisLabel]
  ∧ Forall (λ b, implb (Effects.loading b) (Effects.disabled b) = true) bs
  ∧ ∃ g d,
      Effects.findButton Effects.generateIacDocumentLabel bs = Some g
      ∧ Effects.findButton Effects.downloadAnalysisLabel bs = Some d
      ∧ implb (Effects.disabled d) (Effects.disabled g) = true
      ∧ implb (Model.isImplementing p)
          (Effects.disabled g && Effects.disabled d) = true
      ∧ implb (Model.isDownloading p)
          (Effects.disabled g && Effects.disabled d) = true.
Proof.
  intros bs. subst bs. unfold Effects.headerActions, Effects.findButton.
  destruct (Model.isImplementing p), (Model.isDownloading p),
    (Model.isLoadingDetails p); cbn -[Js.startsWith].
  all: split; [done|]; (split; [|do 2 eexists; repeat split; done]).
  all: repeat constructor; simpl; try done.
  all: by destruct (Nat.eqb _ _).
Qed.

Section HeapFacts.
Import Store Heap.
Implicit Types h : gmap loc obj.

Lemma bind_None {A B} (m : M A) (f : A → M B) h :
  (m h).1 = None → (bind m f h).1 = None.
Proof. unfold bind. by destruct (m h) as [[a|] h']. Qed.

Lemma bind_Some {A B} (m : M A) (f : A → M B) h a h' :
  m h = (Some a, h') → bind m f h = f a h'.
Proof. unfold bind. by intros ->. Qed.

Lemma throws_from_mono {A} (m : M A) h h' :
  h ⊆ h' → throws_from h m → throws_from h' m.
Proof. intros Hsub Hm h'' Hsub'. apply Hm. by etrans. Qed.

Lemma mapM_throws {A B} (f : A → M B) (l : list A) x :
  (∀ y, frame (f y)) → x ∈ l →
  ∀ h, throws_from h (f x) → (mapM f l h).1 = None.
Proof.
  intros Hf Hx. induction Hx as [x l | x y l Hx IH]; intros h Hthrow.
  - simpl. apply bind_None, Hthrow. done.
  - simpl. destruct (f y h) as [[b|] h1] eqn:Hy;
      [|by apply bind_None; rewrite Hy].
    rewrite (bind_Some _ _ _ _ _ Hy).
    apply bind_None, IH. eapply throws_from_mono; [|done].
    pose proof (Hf y h) as Hsub. by rewrite Hy in Hsub.
Qed.

Lemma frame_enhance x y : frame (enhance x y).
Proof.
  unfold enhance. apply frame_bind; [apply frame_getObject|]. intros ?.
  do 3 (apply frame_bind; [apply frame_getField|]; intros ?).
  apply frame_alloc.
Qed.

Lemma frame_result_callback x :
  frame (y <- (bps <- getField x "bestPractices" ;;
               array_map (enhance x) bps) ;;
         getArray y).
Proof.
  apply frame_bind; [|intros; apply frame_getArray].
  apply frame_bind; [apply frame_getField|]. intros bps. unfold array_map.
  apply frame_bind; [apply frame_getArray|]. intros elems.
  apply frame_bind; [|intros; apply frame_alloc].
  apply frame_mapM. intros. apply frame_enhance.
Qed.

Lemma callback_throws h lr fr :
  h !! lr = Some (Object fr) → fr !! "bestPractices" = None →
  throws_from h
    (y <- (bps <- getField (VRef lr) "bestPractices" ;;
           array_map (enhance (VRef lr)) bps) ;;
     getArray y).
Proof.
  intros Hlr Hbps h' Hsub.
  pose proof (lookup_weaken _ _ _ _ Hlr Hsub) as Hlr'.
  assert (getField (VRef lr) "bestPractices" h' = (Some VUndefined, h'))
    as Hfield.
  { unfold getField. erewrite bind_Some;
      [|unfold getObject; rewrite Hlr'; reflexivity].
    unfold ret. by rewrite Hbps. }
  apply bind_None. rewrite (bind_Some _ _ _ _ _ Hfield).
  unfold array_map. by apply bind_None.
Qed.
End HeapFacts.

(** X19.  If any element of [results] is an object without a
    [bestPractices] property, the render body throws (no partial table),
    and the heap it leaves still holds every earlier cell unchanged. *)
Theorem render_throws_without_bestPractices
    (h : gmap Store.loc Store.obj) (l lr : Store.loc)
    (results : list Store.val) (fr : gmap string Store.val) :
  h !! l = Some (Store.Array results) →
  Store.VRef lr ∈ results →
  h !! lr = Some (Store.Object fr) →
  fr !! "bestPractices" = None →
  (Store.render (Store.VRef l) h).1 = None
  ∧ h ⊆ (Store.render (Store.VRef l) h).2.
Proof.
  intros Hl Hin Hlr Hbps. split; [|apply frame_render].
  unfold Store.render. apply bind_None.
  unfold Store.flattenedBestPractices, Store.array_flatMap.
  assert (Store.getArray (Store.VRef l) h = (Some results, h)) as Hget.
  { unfold Store.getArray. by rewrite Hl. }
  rewrite (bind_Some _ _ _ _ _ Hget). apply bind_None.
  eapply mapM_throws; [intros; apply frame_result_callback|exact Hin|].
  by eapply callback_throws.
Qed.

(** X20.  The row built for a best practice is a new object: its
    [pillar], [question] and [questionId] are those of the result (also
    when the best practice has properties of these names, and [undefined]
    when the result lacks them), every other property is copied from the
    best practice, and both source objects are unchanged. *)
Theorem enhance_overrides_and_copies
    (h : gmap Store.loc Store.obj) (lr lb : Store.loc)
    (fr fb : gmap string Store.val) :
  h !! lr = Some (Store.Object fr) →
  h !! lb = Some (Store.Object fb) →
  ∃ l row,
    Store.enhance (Store.VRef lr) (Store.VRef lb) h
    = (Some (Store.VRef l), <[l := Store.Object row]> h)
    ∧ h !! l = None
    ∧ row !! "pillar" = Some (default Store.VUndefined (fr !! "pillar"))
    ∧ row !! "question" = Some (default Store.VUndefined (fr !! "question"))
    ∧ row !! "questionId"
      = Some (default Store.VUndefined (fr !! "questionId"))
    ∧ (∀ k, k ≠ "pillar" → k ≠ "question" → k ≠ "questionId" →
            row !! k = fb !! k)
    ∧ <[l := Store.Object row]> h !! lb = Some (Store.Object fb)
    ∧ <[l := Store.Object row]> h !! lr = Some (Store.Object fr).
Proof.
  intros Hlr Hlb.
  assert (h !! fresh (dom h) = None) as Hfresh by apply alloc_fresh.
  eexists (fresh (dom h)), _. split.
  { unfold Store.enhance.
    erewrite bind_Some; [|unfold Store.getObject; rewrite Hlb; reflexivity].
    do 3 (erewrite bind_Some;
          [|unfold Store.getField;
            erewrite bind_Some;
              [|unfold Store.getObject; rewrite Hlr; reflexivity];
            reflexivity]).
    reflexivity. }
  split; [done|].
  repeat split; try by simplify_map_eq.
  intros k H1 H2 H3. by rewrite !lookup_insert_ne.
Qed.

Section CountFacts.
Import Store Heap.
Implicit Types h : gmap loc obj.

Lemma field_of_mono h h' v k :
  h ⊆ h' → is_some_object h v → field_of h' v k = field_of h v k.
Proof.
  intros Hsub (l & f & -> & Hl & _). unfold field_of.
  by rewrite Hl, (lookup_weaken _ _ _ _ Hl Hsub).
Qed.

Lemma returns_count_step_any h acc c v :
  is_acc h acc c → is_some_object h v →
  returns (count_step acc v) h (λ acc' h', is_acc h' acc' (bump h c v)).
Proof.
  intros (la & fa & -> & Hla & Ha & Hn & Hr) (lp & fp & -> & Hlp & _).
  unfold count_step.
  apply returns_bind. eapply returns_getNum; [exact Hla|exact Ha|].
  apply returns_bind. eapply returns_getNum; [exact Hla|exact Hn|].
  apply returns_bind. eapply returns_getNum; [exact Hla|exact Hr|].
  apply returns_bind. eapply returns_getField; [exact Hlp|reflexivity|].
  apply returns_bind. eapply returns_getField; [exact Hlp|reflexivity|].
  apply returns_alloc.
  eexists _, _. split; [done|]. split; [apply lookup_insert_eq|].
  unfold bump, field_of. rewrite Hlp. simpl.
  repeat split; by simplify_map_eq.
Qed.

Lemma bump_mono h h' c v :
  h ⊆ h' → is_some_object h v → bump h' c v = bump h c v.
Proof.
  intros Hsub Hv. unfold bump. by rewrite !(field_of_mono h h' v _ Hsub Hv).
Qed.

Lemma fold_bump_mono h h' rows : ∀ c,
  h ⊆ h' → Forall (is_some_object h) rows →
  fold_left (bump h') rows c = fold_left (bump h) rows c.
Proof.
  induction rows as [|v rows IH]; intros c Hsub Hall; [done|].
  apply Forall_cons in Hall as [Hv Hrows]. simpl.
  rewrite (bump_mono h h' c v Hsub Hv). by apply IH.
Qed.

Lemma returns_foldM_count_any rows : ∀ h acc c,
  is_acc h acc c → Forall (is_some_object h) rows →
  returns (foldM count_step acc rows) h
    (λ v h', is_acc h' v (fold_left (bump h) rows c)).
Proof.
  induction rows as [|v rows IH]; intros h acc c Hacc Hall.
  - by apply returns_ret.
  - apply Forall_cons in Hall as [Hv Hrows]. simpl. apply returns_bind.
    eapply returns_wand; [by apply returns_count_step_any|].
    intros acc' h1 Hsub1 Hacc'.
    assert (Forall (is_some_object h1) rows) as Hrows1.
    { eapply Forall_impl; [exact Hrows|]. intros ?. by apply is_object_mono. }
    eapply returns_wand; [apply IH; [exact Hacc'|exact Hrows1]|].
    intros v' h2 Hsub2 Hv'. simpl in Hv'.
    by rewrite (fold_bump_mono h h1 rows _ Hsub1 Hrows) in Hv'.
Qed.

Lemma one_if_partition (relevant applied : val) :
  one_if (and_ relevant applied) + one_if (and_ relevant (not_ applied))
  + one_if (not_ relevant) = 1.
Proof.
  unfold one_if, and_, not_.
  destruct (truthy relevant) eqn:Hr; simpl; rewrite ?Hr; simpl;
    [|reflexivity].
  by destruct (truthy applied).
Qed.

Lemma fold_bump_total h rows : ∀ c,
  let c' := fold_left (bump h) rows c in
  Model.c_applied c' + Model.c_notApplied c' + Model.c_notRelevant c'
  = Model.c_applied c + Model.c_notApplied c + Model.c_notRelevant c
    + length rows.
Proof.
  induction rows as [|v rows IH]; intros c; simpl; [lia|].
  rewrite IH. unfold bump. simpl.
  pose proof (one_if_partition (field_of h v "relevant")
                (field_of h v "applied")). lia.
Qed.
End CountFacts.

(** X21.  Counting partitions the rows under JavaScript truthiness,
    whatever the rows hold: for an array of objects with any or no
    [relevant] and [applied] properties the counts object is returned,
    its three counters add up to the number of rows and [totalReviewed]
    is that number. *)
Theorem counts_partition_any_values
    (h : gmap Store.loc Store.obj) (l : Store.loc) (rows : list Store.val) :
  h !! l = Some (Store.Array rows) →
  Forall (Heap.is_some_object h) rows →
  ∃ lc fc h' c,
    Store.getBestPracticeCounts (Store.VRef l) h = (Some (Store.VRef lc), h')
    ∧ h ⊆ h'
    ∧ h' !! lc = Some (Store.Object fc)
    ∧ c = fold_left (Heap.bump h) rows
            {| Model.c_applied := 0; Model.c_notApplied := 0;
               Model.c_notRelevant := 0 |}
    ∧ fc !! "applied" = Some (Store.VNum (Model.c_applied c))
    ∧ fc !! "notApplied" = Some (Store.VNum (Model.c_notApplied c))
    ∧ fc !! "notRelevant" = Some (Store.VNum (Model.c_notRelevant c))
    ∧ fc !! "totalReviewed" = Some (Store.VNum (length rows))
    ∧ Model.c_applied c + Model.c_notApplied c + Model.c_notRelevant c
      = length rows.
Proof.
  intros Hl Hrows.
  set (c0 := {| Model.c_applied := 0; Model.c_notApplied := 0;
                Model.c_notRelevant := 0 |}).
  pose proof (fold_bump_total h rows c0) as Htotal. simpl in Htotal.
  assert (Store.returns (Store.getBestPracticeCounts (Store.VRef l)) h
            (λ v h', ∃ lc fc, v = Store.VRef lc
               ∧ h' !! lc = Some (Store.Object fc)
               ∧ fc !! "applied"
                 = Some (Store.VNum (Model.c_applied (fold_left (Heap.bump h) rows c0)))
               ∧ fc !! "notApplied"
                 = Some (Store.VNum (Model.c_notApplied (fold_left (Heap.bump h) rows c0)))
               ∧ fc !! "notRelevant"
                 = Some (Store.VNum (Model.c_notRelevant (fold_left (Heap.bump h) rows c0)))
               ∧ fc !! "totalReviewed" = Some (Store.VNum (length rows))))
    as (v & h' & Hrun & Hsub & lc & fc & -> & Hlc & Ha & Hn & Hr & Ht).
  { unfold Store.getBestPracticeCounts, Store.array_reduce.
    apply returns_bind, returns_alloc.
    set (h1 := <[fresh (dom h) := _]> h).
    assert (h ⊆ h1) as Hsub1 by apply insert_subseteq, alloc_fresh.
    apply returns_bind, returns_bind.
    eapply returns_getArray; [by eapply lookup_weaken|].
    eapply returns_wand.
    { apply (returns_foldM_count_any rows h1 _ c0).
      - eexists _, _. split; [done|]. split; [apply lookup_insert_eq|].
        repeat split; by simplify_map_eq.
      - eapply Forall_impl; [exact Hrows|]. intros ?.
        by apply is_object_mono. }
    intros cv h2 Hsub2 (lc & fc & -> & Hlc & Ha & Hn & Hr).
    rewrite (fold_bump_mono h h1 rows c0 Hsub1 Hrows) in Ha, Hn, Hr.
    apply returns_bind, (returns_getObject _ _ _ _ Hlc).
    apply returns_bind. eapply returns_getNum; [exact Hlc|exact Ha|].
    apply returns_bind. eapply returns_getNum; [exact Hlc|exact Hn|].
    apply returns_bind. eapply returns_getNum; [exact Hlc|exact Hr|].
    apply returns_alloc.
    eexists _, _. split; [done|]. split; [apply lookup_insert_eq|].
    rewrite Htotal. repeat split; by simplify_map_eq. }
  exists lc, fc, h', (fold_left (Heap.bump h) rows c0).
  repeat split; done.
Qed.

(* ===================================================================== *)
(** * The further properties at the sample inputs *)
(* ===================================================================== *)

Lemma cells_agree_with_status_witness :
  View.indicatorType
    (View.statusCell (Model.enhance Samples.result1 Samples.bp1))
  = Some View.typeError
  ∧ Effects.recommendationsCell (Model.enhance Samples.result1 Samples.bp2)
    = Effects.Text (Js.Str "N/A")
  ∧ View.reasonCell (Model.enhance Samples.result2 Samples.bp3) = Js.Str "N/A".
Proof.
  split; [|split].
  - destruct (cells_agree_with_status
                (Model.enhance Samples.result1 Samples.bp1)) as (Hchat & _).
    apply Hchat. reflexivity.
  - destruct (cells_agree_with_status
                (Model.enhance Samples.result1 Samples.bp2))
      as (_ & Hsuccess & _).
    apply Hsuccess. reflexivity.
  - destruct (cells_agree_with_status
                (Model.enhance Samples.result2 Samples.bp3))
      as (_ & _ & Hstopped & _).
    apply Hstopped. reflexivity.
Defined.

Lemma chat_buttons_bounded_by_notApplied_witness :
  length (filter (λ item, View.hasChatButton item = true)
            (Model.flattenedBestPractices Samples.sampleResults))
  = Model.notApplied_count
      (Model.getBestPracticeCounts
         (Model.flattenedBestPractices Samples.sampleResults)).
Proof.
  destruct (chat_buttons_bounded_by_notApplied
              (Model.flattenedBestPractices Samples.sampleResults))
    as (_ & Heq).
  apply Heq. unfold Model.flattenedBestPractices, Model.flatMap. simpl.
  repeat (apply Forall_cons; split; [vm_compute; congruence|]).
  constructor.
Defined.

Lemma itemSelectionLabel_by_id_witness :
  View.itemSelectionLabel "not selected"
    [Model.enhance Samples.result1 Samples.bp1]
    (Model.enhance Samples.result1 Samples.bp1)
  = Model.dquote +:+ "Separate workloads using accounts" +:+ Model.dquote
    +:+ " is ".
Proof.
  destruct (itemSelectionLabel_by_id "not selected"
              [Model.enhance Samples.result1 Samples.bp1]
              (Model.enhance Samples.result1 Samples.bp1))
    as (_ & Hselected & _).
  apply Hselected. apply list_elem_of_here.
Defined.


Lemma settled_details_request_releases_the_button_witness :
  let ui :=
    Runtime.run (Runtime.start (Samples.sampleProps "image/png"))
      [Runtime.SelectionChange [Model.enhance Samples.result1 Samples.bp1];
       Runtime.Click Effects.getMoreDetailsLabel] in
  let ui' :=
    Runtime.step ui
      (Runtime.Settle 0
         (Runtime.DetailsSettled
            (Effects.Rejected (Effects.ErrorObject "Network Error")))) in
  Model.isLoadingDetails (Runtime.props (Runtime.world ui')) = false
  ∧ Runtime.detailsInFlight ui' = 0
  ∧ Runtime.detailsDisabled ui' = false
  ∧ Runtime.detailsCalls ui' = 1.
Proof.
  eapply (settled_details_request_releases_the_button
            (Samples.sampleProps "image/png")
            [Runtime.SelectionChange [Model.enhance Samples.result1 Samples.bp1];
             Runtime.Click Effects.getMoreDetailsLabel]
            0 _ _
            (Effects.Rejected (Effects.ErrorObject "Network Error"))).
  reflexivity.
Defined.

Lemma render_throws_without_bestPractices_witness :
  (Store.render (Store.VRef 5%positive) Heap.looseHeap).1 = None
  ∧ Heap.looseHeap ⊆ (Store.render (Store.VRef 5%positive) Heap.looseHeap).2.
Proof.
  eapply (render_throws_without_bestPractices Heap.looseHeap 5%positive
            4%positive [Store.VRef 4%positive]).
  - reflexivity.
  - apply list_elem_of_here.
  - reflexivity.
  - reflexivity.
Defined.

Lemma enhance_overrides_and_copies_witness :
  ∃ l row,
    Store.enhance (Store.VRef 4%positive) (Store.VRef 2%positive) Heap.looseHeap
    = (Some (Store.VRef l), <[l := Store.Object row]> Heap.looseHeap)
    ∧ Heap.looseHeap !! l = None
    ∧ row !! "pillar" = Some (Store.VStr "Security")
    ∧ row !! "question" = Some (Store.VStr "How is access managed?")
    ∧ row !! "questionId" = Some Store.VUndefined
    ∧ (∀ k, k ≠ "pillar" → k ≠ "question" → k ≠ "questionId" →
            row !! k = Heap.looseRow !! k)
    ∧ <[l := Store.Object row]> Heap.looseHeap !! 2%positive
      = Some (Store.Object Heap.looseRow)
    ∧ <[l := Store.Object row]> Heap.looseHeap !! 4%positive
      = Some (Store.Object Heap.looseResult).
Proof.
  apply (enhance_overrides_and_copies Heap.looseHeap 4%positive 2%positive
           Heap.looseResult Heap.looseRow); reflexivity.
Defined.

Lemma counts_partition_any_values_witness :
  ∃ lc fc h' c,
    Store.getBestPracticeCounts (Store.VRef 1%positive) Heap.looseHeap
    = (Some (Store.VRef lc), h')
    ∧ Heap.looseHeap ⊆ h'
    ∧ h' !! lc = Some (Store.Object fc)
    ∧ c = fold_left (Heap.bump Heap.looseHeap)
            [Store.VRef 2%positive; Store.VRef 3%positive]
            {| Model.c_applied := 0; Model.c_notApplied := 0;
               Model.c_notRelevant := 0 |}
    ∧ fc !! "applied" = Some (Store.VNum (Model.c_applied c))
    ∧ fc !! "notApplied" = Some (Store.VNum (Model.c_notApplied c))
    ∧ fc !! "notRelevant" = Some (Store.VNum (Model.c_notRelevant c))
    ∧ fc !! "totalReviewed" = Some (Store.VNum 2)
    ∧ Model.c_applied c + Model.c_notApplied c + Model.c_notRelevant c = 2.
Proof.
  apply (counts_partition_any_values Heap.looseHeap 1%positive
           [Store.VRef 2%positive; Store.VRef 3%positive]).
  - reflexivity.
  - repeat constructor; eexists _, _; repeat split; reflexivity.
Defined.

Example loose_counts :
  fold_left (Heap.bump Heap.looseHeap)
    [Store.VRef 2%positive; Store.VRef 3%positive]
    {| Model.c_applied := 0; Model.c_notApplied := 0;
       Model.c_notRelevant := 0 |}
  = {| Model.c_applied := 1; Model.c_notApplied := 0;
       Model.c_notRelevant := 1 |}.
Proof. reflexivity. Qed.
